(** * Shallow embedding of parts of the rawr workspace crates

    - [Extract]: the ordering on versions ([crates/extract/src/compare.rs]);
    - [StoragePath]: path validation ([crates/storage/src/path.rs]);
    - [Compress]: compression formats ([crates/compress/src]);
    - [Cache]: the file/version repository ([crates/cache/src/repo.rs],
      [crates/cache/src/models/join.rs]);
    - [Scan]: single-file and streaming scan ([crates/library/src/scan]);
    - [Organize]: single-file organize and conflict resolution
      ([crates/library/src/organize]);
    - [PathTemplate]: path normalization ([crates/library/src/template.rs]). *)

From Stdlib Require Import List String Ascii ZArith Bool Lia Permutation.
Import ListNotations.
Open Scope Z_scope.

(* ------------------------------------------------------------------------- *)
(** ** crates/extract: models and [Ord for Version] *)

Module Extract.

(** [Chapters] ([models/chapters.rs]); [written] is a [u32]. *)
Record Chapters := mkChapters {
  written : Z;
  total : option Z
}.

(** [Metadata] ([models/metadata.rs]), restricted to the fields the
    ordering and the cache read; dates are day numbers. *)
Record Metadata := mkMetadata {
  work_id : Z;
  title : string;
  chapters : Chapters;
  words : Z;
  published : Z;
  last_modified : Z
}.

(** [Version] ([models/version.rs]); [length] is a [u64]. *)
Record Version := mkVersion {
  hash : string;
  length : Z;
  crc32 : Z;
  metadata : Metadata;
  extracted_at : Z
}.

(** [appears_to_be_deletion_notice]. The source compares
    [self as f64 < other as f64 * 0.5] and [self as f64 < other as f64 * 0.2];
    for non-negative integers below 2^53 these agree with the exact
    comparisons [2 * self < other] and [5 * self < other] written here. *)
Definition appears_to_be_deletion_notice (self other : Version) : bool :=
  let chapters_reduced :=
    2 * written (chapters (metadata self)) <? written (chapters (metadata other)) in
  let size_reduced := 5 * length self <? length other in
  chapters_reduced && size_reduced.

(** [Ord for Metadata]. *)
Definition metadata_cmp (self other : Metadata) : comparison :=
  if negb (last_modified self =? last_modified other)
  then Z.compare (last_modified self) (last_modified other)
  else if negb (words self =? words other)
  then Z.compare (words self) (words other)
  else if negb (written (chapters self) =? written (chapters other))
  then Z.compare (written (chapters self)) (written (chapters other))
  else if negb (published self =? published other)
  then Z.compare (published self) (published other)
  else Eq.

(** [Ord for Version]. *)
Definition cmp (self other : Version) : comparison :=
  if appears_to_be_deletion_notice self other then Lt
  else if appears_to_be_deletion_notice other self then Gt
  else metadata_cmp (metadata self) (metadata other).

End Extract.

(* ------------------------------------------------------------------------- *)
(** ** crates/storage/src/path.rs *)

Module StoragePath.

(** [std::path::Component]. *)
Inductive Component :=
| Prefix (p : string)
| RootDir
| CurDir
| ParentDir
| Normal (s : string).

Inductive ErrorKind :=
| InvalidPath (p : list Component).

Inductive result (A : Type) :=
| Ok (a : A)
| Err (e : ErrorKind).
Arguments Ok {A} a.
Arguments Err {A} e.

Definition contains_nul (s : string) : bool :=
  existsb (fun c => Ascii.eqb c Ascii.zero) (list_ascii_of_string s).

(** The loop of [validate] over [path.components()]: [components] is the
    stack of kept normal components, in push order reversed. *)
Fixpoint validate_loop (orig : list Component) (cs : list Component)
    (components : list string) : result (list string) :=
  match cs with
  | [] => Ok components
  | Normal s :: rest =>
      if contains_nul s then Err (InvalidPath orig)
      else validate_loop orig rest (s :: components)
  | (CurDir | RootDir) :: rest => validate_loop orig rest components
  | Prefix _ :: _ => Err (InvalidPath orig)
  | ParentDir :: rest =>
      match components with
      | [] => Err (InvalidPath orig)
      | _ :: popped => validate_loop orig rest popped
      end
  end.

(** [validate], on the component sequence of the input; the result is the
    list of normal components that [collect] joins into a [PathBuf]. *)
Definition validate (cs : list Component) : result (list string) :=
  match validate_loop cs cs [] with
  | Ok [] => Err (InvalidPath cs)
  | Ok components => Ok (rev components)
  | Err e => Err e
  end.

(** Splitting on ['/'], keeping empty segments. *)
Fixpoint split_slash (l : list Ascii.ascii) (cur : list Ascii.ascii)
    : list (list Ascii.ascii) :=
  match l with
  | [] => [rev cur]
  | c :: rest =>
      if Ascii.eqb c "/"%char then rev cur :: split_slash rest []
      else split_slash rest (c :: cur)
  end.

Definition body_component (seg : list Ascii.ascii) : list Component :=
  match seg with
  | [] => []
  | ["."%char] => []
  | ["."%char; "."%char] => [ParentDir]
  | _ => [Normal (string_of_list_ascii seg)]
  end.

(** [Path::components] on Unix: a leading ['/'] is [RootDir]; a leading
    ["."] segment of a relative path is [CurDir]; empty and interior ["."]
    segments are skipped; [".."] is [ParentDir]. Unix has no [Prefix]. *)
Definition components (s : string) : list Component :=
  let l := list_ascii_of_string s in
  let segs := split_slash l [] in
  let head :=
    match l with
    | "/"%char :: _ => [RootDir]
    | _ => match segs with
           | ["."%char] :: _ => [CurDir]
           | _ => []
           end
    end in
  head ++ flat_map body_component segs.

(** [validate(path)] on a Unix path string. *)
Definition validate_path (s : string) : result (list string) :=
  validate (components s).

Definition is_err {A} (r : result A) : bool :=
  match r with Ok _ => false | Err _ => true end.

Definition ok_of (r : result (list string)) : option (list string) :=
  match r with Ok a => Some a | Err _ => None end.

(** Joining segments with ['/'] ([join("/")], and the string of a [PathBuf]
    collected from relative normal components). *)
Fixpoint join_slash (segs : list (list Ascii.ascii)) : list Ascii.ascii :=
  match segs with
  | [] => []
  | [x] => x
  | x :: rest => x ++ "/"%char :: join_slash rest
  end.

(** [PathBuf::to_str] of [components.into_iter().collect()]. *)
Definition path_string (cs : list string) : string :=
  string_of_list_ascii (join_slash (map list_ascii_of_string cs)).

(** [Path::file_name]: the last component, when it is a normal one. *)
Definition file_name (s : string) : option string :=
  match rev (components s) with
  | Normal f :: _ => Some f
  | _ => None
  end.

(** [rsplitn(2, |b| *b == b'.')] on the reversed bytes of a file name: the
    bytes after the last ['.'] and, when there is one, the bytes before it. *)
Fixpoint rsplit_at_dot (r : list Ascii.ascii) (after : list Ascii.ascii)
    : list Ascii.ascii * option (list Ascii.ascii) :=
  match r with
  | [] => (after, None)
  | c :: r' =>
      if Ascii.eqb c "."%char then (after, Some (rev r'))
      else rsplit_at_dot r' (c :: after)
  end.

(** [Path::extension], through [rsplit_file_at_dot]: none for [".."], for a
    name without a dot, and for a name whose only dot is its first byte. *)
Definition path_extension (s : string) : option string :=
  match file_name s with
  | None => None
  | Some file =>
      if String.eqb file ".." then None
      else match rsplit_at_dot (rev (list_ascii_of_string file)) [] with
           | (_, None) => None
           | (_, Some []) => None
           | (after, Some _) => Some (string_of_list_ascii after)
           end
  end.

(** A segment [validate] lets through: non-empty, neither [.] nor [..],
    without a separator or a NUL byte. *)
Definition seg_ok (s : string) : Prop :=
  s <> ""%string /\ s <> "."%string /\ s <> ".."%string /\
  ~ In "/"%char (list_ascii_of_string s) /\ contains_nul s = false.

End StoragePath.

(* ------------------------------------------------------------------------- *)
(** ** crates/compress: [Compression] and its string forms *)

Module Compress.

(** The always-available formats (the feature-gated Brotli, Xz and Zstd are
    left out of this build). *)
Inductive Compression := None_ | Bzip2 | Gzip.

Definition compression_eqb (a b : Compression) : bool :=
  match a, b with
  | None_, None_ | Bzip2, Bzip2 | Gzip, Gzip => true
  | _, _ => false
  end.

(** [Display] ([util.rs]). *)
Definition to_string (c : Compression) : string :=
  match c with None_ => "none" | Bzip2 => "bzip2" | Gzip => "gzip" end.

Definition ascii_lower (c : ascii) : ascii :=
  let n := nat_of_ascii c in
  if andb (Nat.leb 65 n) (Nat.leb n 90) then ascii_of_nat (n + 32) else c.

Definition to_lowercase (s : string) : string :=
  string_of_list_ascii (map ascii_lower (list_ascii_of_string s)).

(** [FromStr] ([construct.rs]). *)
Definition from_str (s : string) : option Compression :=
  let l := to_lowercase s in
  if String.eqb l "none" then Some None_
  else if String.eqb l "bz2" || String.eqb l "bzip2" then Some Bzip2
  else if String.eqb l "gz" || String.eqb l "gzip" then Some Gzip
  else None.

(** [extension] ([util.rs]). *)
Definition extension (c : Compression) : string :=
  match c with None_ => "" | Bzip2 => ".bz2" | Gzip => ".gz" end.

(** [from_path] ([construct.rs]); paths are text here, so [to_str]
    succeeds. *)
Definition from_path (p : string) : Compression :=
  match StoragePath.path_extension p with
  | Some ext =>
      let e := to_lowercase ext in
      if String.eqb e "bz2" then Bzip2
      else if String.eqb e "gz" then Gzip
      else None_
  | None => None_
  end.

Definition BZIP2_MAGIC : list Byte.byte := [Byte.x42; Byte.x5a; Byte.x68].
Definition GZIP_MAGIC : list Byte.byte := [Byte.x1f; Byte.x8b].

(** [<[u8]>::starts_with]. *)
Fixpoint starts_with (bytes prefix : list Byte.byte) {struct prefix} : bool :=
  match prefix, bytes with
  | [], _ => true
  | p :: ps, b :: bs => Byte.eqb b p && starts_with bs ps
  | _ :: _, [] => false
  end.

(** [from_magic_bytes] ([construct.rs]). *)
Definition from_magic_bytes (bytes : list Byte.byte) : Compression :=
  if starts_with bytes BZIP2_MAGIC then Bzip2
  else if starts_with bytes GZIP_MAGIC then Gzip
  else None_.

(** [check_magic_bytes] ([util.rs]). *)
Definition check_magic_bytes (c : Compression) (bytes : list Byte.byte) : bool :=
  compression_eqb c (from_magic_bytes bytes).

End Compress.

(* ------------------------------------------------------------------------- *)
(** ** crates/cache: rows, models and the repository *)

Module Cache.
Import Extract Compress.

Definition I64_MAX : Z := 2 ^ 63 - 1.
Definition U32_MAX : Z := 2 ^ 32 - 1.
(** Unix timestamps accepted by [UtcDateTime::from_unix_timestamp]
    (years -9999 to 9999). *)
Definition TS_MIN : Z := -377705116800.
Definition TS_MAX : Z := 253402300799.
Definition SECS_PER_DAY : Z := 86400.

(** [FileMeta] ([crates/storage/src/file.rs]); instants are Unix seconds. *)
Record FileMeta := mkFileMeta {
  target : string;
  path : string;
  compression : Compression;
  size : Z;
  discovered_at : Z
}.

(** [FileInfo<Processed>]: both hashes known. *)
Record File := mkFile {
  meta : FileMeta;
  file_hash : string;
  content_hash : string
}.

(** Cache error kinds; [Database] keeps the sqlx source when there is one. *)
Inductive SqlxError := ColumnDecode (index : string).

Inductive ErrorKind :=
| Database (source : option SqlxError)
| Migration
| FileNotFound
| VersionNotFound
| InvalidData (what : string)
| Constraint.

Inductive result (A : Type) :=
| Ok (a : A)
| Err (e : ErrorKind).
Arguments Ok {A} a.
Arguments Err {A} e.

Definition bind {A B} (r : result A) (k : A -> result B) : result B :=
  match r with Ok a => k a | Err e => Err e end.
Local Notation "x <- r ;; k" := (bind r (fun x => k))
  (at level 61, r at next level, right associativity).

Definition try_range (lo hi v : Z) (what : string) : result Z :=
  if (lo <=? v) && (v <=? hi) then Ok v else Err (InvalidData what).

(** [FileRow] ([models/file.rs]). *)
Record FileRow := mkFileRow {
  fr_target : string;
  fr_path : string;
  fr_compression : string;
  fr_file_size : Z;
  fr_file_hash : string;
  fr_content_hash : string;
  fr_discovered_at : Z
}.

(** [VersionRow] ([models/version.rs]); the JSON list columns are not read by
    anything modelled here and are left out. *)
Record VersionRow := mkVersionRow {
  vr_content_hash : string;
  vr_content_crc32 : Z;
  vr_work_id : Z;
  vr_content_size : Z;
  vr_title : string;
  vr_chapters_written : Z;
  vr_chapters_total : option Z;
  vr_words : Z;
  vr_published_on : Z;
  vr_last_modified : Z;
  vr_extracted_at : Z
}.

(** [TryFrom<&FileInfo<Processed>> for FileRow]. *)
Definition file_row_of_file (f : File) : result FileRow :=
  file_size <- try_range (-2 ^ 63) I64_MAX (size (meta f)) "file size" ;;
  Ok {| fr_target := target (meta f);
        fr_path := path (meta f);
        fr_compression := Compress.to_string (compression (meta f));
        fr_file_size := file_size;
        fr_file_hash := file_hash f;
        fr_content_hash := content_hash f;
        fr_discovered_at := discovered_at (meta f) |}.

(** [TryFrom<FileRow> for FileInfo<Processed>]. *)
Definition file_of_file_row (r : FileRow) : result File :=
  c <- match Compress.from_str (fr_compression r) with
       | Some c => Ok c
       | None => Err (InvalidData "compression format")
       end ;;
  sz <- try_range 0 (2 ^ 64 - 1) (fr_file_size r) "file size" ;;
  at_ <- try_range TS_MIN TS_MAX (fr_discovered_at r) "discovery date" ;;
  Ok {| meta := {| target := fr_target r; path := fr_path r; compression := c;
                   size := sz; discovered_at := at_ |};
        file_hash := fr_file_hash r;
        content_hash := fr_content_hash r |}.

(** [TryFrom<&Version> for VersionRow]; a date is written as the timestamp
    of its midnight. *)
Definition version_row_of_version (v : Version) : result VersionRow :=
  work_id <- try_range (-2 ^ 63) I64_MAX (work_id (metadata v)) "work id" ;;
  content_size <- try_range (-2 ^ 63) I64_MAX (length v) "content size" ;;
  words <- try_range (-2 ^ 63) I64_MAX (words (metadata v)) "words" ;;
  Ok {| vr_content_hash := hash v;
        vr_content_crc32 := crc32 v;
        vr_work_id := work_id;
        vr_content_size := content_size;
        vr_title := title (metadata v);
        vr_chapters_written := written (chapters (metadata v));
        vr_chapters_total := total (chapters (metadata v));
        vr_words := words;
        vr_published_on := published (metadata v) * SECS_PER_DAY;
        vr_last_modified := last_modified (metadata v) * SECS_PER_DAY;
        vr_extracted_at := extracted_at v |}.

Definition try_opt_u32 (o : option Z) (what : string) : result (option Z) :=
  match o with
  | None => Ok None
  | Some c => c' <- try_range 0 U32_MAX c what ;; Ok (Some c')
  end.

(** [TryFrom<VersionRow> for Version]; [.date()] is the day number. *)
Definition version_of_version_row (r : VersionRow) : result Version :=
  crc <- try_range 0 U32_MAX (vr_content_crc32 r) "crc32" ;;
  len <- try_range 0 (2 ^ 64 - 1) (vr_content_size r) "content length" ;;
  wid <- try_range 0 (2 ^ 64 - 1) (vr_work_id r) "work id" ;;
  cw <- try_range 0 U32_MAX (vr_chapters_written r) "chapters written" ;;
  ct <- try_opt_u32 (vr_chapters_total r) "chapters total" ;;
  w <- try_range 0 (2 ^ 64 - 1) (vr_words r) "words" ;;
  pub_ <- try_range TS_MIN TS_MAX (vr_published_on r) "published on date" ;;
  lm <- try_range TS_MIN TS_MAX (vr_last_modified r) "last modified date" ;;
  ex <- try_range TS_MIN TS_MAX (vr_extracted_at r) "extraction date" ;;
  Ok {| hash := vr_content_hash r; length := len; crc32 := crc;
        metadata := {| work_id := wid; title := vr_title r;
                       chapters := {| written := cw; total := ct |};
                       words := w; published := pub_ / SECS_PER_DAY;
                       last_modified := lm / SECS_PER_DAY |};
        extracted_at := ex |}.

(** The two tables of the schema ([versions], [files]). *)
Record Db := mkDb {
  versions : list VersionRow;
  files : list FileRow
}.

(** [Repository]: the pool is the database state threaded explicitly. *)
Record Repository := mkRepository { dry_run : bool }.

Definition same_key (target path : string) (r : FileRow) : bool :=
  String.eqb (fr_target r) target && String.eqb (fr_path r) path.

(** Modelled from the spec: [queries/upsert_version.sql] (not in the
    sources): insert the version, doing nothing when a version with the same
    content hash exists. *)
Definition upsert_version_sql (vr : VersionRow) (db : Db) : Db :=
  if existsb (fun r => String.eqb (vr_content_hash r) (vr_content_hash vr)) (versions db)
  then db
  else {| versions := versions db ++ [vr]; files := files db |}.

(** Modelled from the spec: [queries/upsert_file.sql] (not in the sources):
    the file row keyed by (target, path) is inserted or replaced. *)
Definition upsert_file_sql (fr : FileRow) (db : Db) : Db :=
  {| versions := versions db;
     files := filter (fun r => negb (same_key (fr_target fr) (fr_path fr) r)) (files db)
              ++ [fr] |}.

(** [Repository::upsert]; the transaction either commits both statements or
    leaves the database as it was. *)
Definition upsert (repo : Repository) (file : File) (version : Version) (db : Db)
    : result unit * Db :=
  if negb (String.eqb (content_hash file) (hash version)) then (Err Constraint, db)
  else if dry_run repo then (Ok tt, db)
  else match version_row_of_version version with
       | Err e => (Err e, db)
       | Ok version_row =>
           match file_row_of_file file with
           | Err e => (Err e, db)
           | Ok file_row => (Ok tt, upsert_file_sql file_row (upsert_version_sql version_row db))
           end
       end.

(** Modelled from the spec: [Repository::update_target_path] (not in the
    sources): renames a file row; a dry run touches nothing. *)
Definition update_target_path (repo : Repository) (target old new : string) (db : Db)
    : result bool * Db :=
  let hit := existsb (same_key target old) (files db) in
  if dry_run repo then (Ok true, db)
  else (Ok hit, {| versions := versions db;
                   files := map (fun r => if same_key target old r
                                          then {| fr_target := fr_target r; fr_path := new;
                                                  fr_compression := fr_compression r;
                                                  fr_file_size := fr_file_size r;
                                                  fr_file_hash := fr_file_hash r;
                                                  fr_content_hash := fr_content_hash r;
                                                  fr_discovered_at := fr_discovered_at r |}
                                          else r) (files db) |}).

(** Referential integrity of [files.content_hash]: every file row has the
    version row its content hash names. *)
Definition db_ok (db : Db) : Prop :=
  forall fr, In fr (files db) ->
  exists vr, In vr (versions db) /\ vr_content_hash vr = fr_content_hash fr.

(** Modelled from the spec: the inner join on [content_hash] that the
    [get_by_*] queries run (the [.sql] files are not in the sources). *)
Definition join_rows (sel : FileRow -> bool) (db : Db) : list (FileRow * VersionRow) :=
  flat_map (fun fr =>
    map (fun vr => (fr, vr))
      (filter (fun vr => String.eqb (vr_content_hash vr) (fr_content_hash fr)) (versions db)))
    (filter sel (files db)).

(** [TryFrom<FullJoinRow> for (File, Version)]. *)
Definition pair_of_join_row (row : FileRow * VersionRow) : result (File * Version) :=
  file <- file_of_file_row (fst row) ;;
  version <- version_of_version_row (snd row) ;;
  Ok (file, version).

Fixpoint collect {A B} (f : A -> result B) (l : list A) : result (list B) :=
  match l with
  | [] => Ok []
  | x :: xs => y <- f x ;; ys <- collect f xs ;; Ok (y :: ys)
  end.

(** [Repository::get_by_target_path] ([fetch_optional]: the first row). *)
Definition get_by_target_path (target path : string) (db : Db)
    : result (option (File * Version)) :=
  match join_rows (same_key target path) db with
  | [] => Ok None
  | row :: _ => p <- pair_of_join_row row ;; Ok (Some p)
  end.

(** [Repository::get_by_file_hash]. *)
Definition get_by_file_hash (file_hash : string) (db : Db) : result (list (File * Version)) :=
  collect pair_of_join_row
    (join_rows (fun fr => String.eqb (fr_file_hash fr) file_hash) db).

(** [ExistenceResult]. *)
Inductive ExistenceResult :=
| NotFound
| ExactMatch (f : File) (v : Version)
| HashMismatch (f : File) (v : Version)
| LocatedElsewhere (f : File) (v : Version).

(** Modelled from the spec: [Repository::exists] (its body in [repo.rs] is
    commented out; this follows that body and the spec's four outcomes). *)
Definition exists_ (target path file_hash_ : string) (db : Db) : result ExistenceResult :=
  at_path <- get_by_target_path target path db ;;
  match at_path with
  | Some (file, version) =>
      Ok (if String.eqb (file_hash file) file_hash_
          then ExactMatch file version else HashMismatch file version)
  | None =>
      elsewhere <- get_by_file_hash file_hash_ db ;;
      match elsewhere with
      | (file, version) :: _ => Ok (LocatedElsewhere file version)
      | [] => Ok NotFound
      end
  end.

(** Modelled from the spec: [Repository::delete_by_target_path] (not in the
    sources): removes the file row only; a dry run touches nothing. *)
Definition delete_by_target_path (repo : Repository) (target path : string) (db : Db)
    : result bool * Db :=
  let hit := existsb (same_key target path) (files db) in
  if dry_run repo then (Ok true, db)
  else (Ok hit, {| versions := versions db;
                   files := filter (fun r => negb (same_key target path r)) (files db) |}).

(** A row of [versions v LEFT JOIN files f], as sqlx sees it: the version
    columns, then the file columns, each possibly NULL. *)
Record SqlRow := mkSqlRow {
  row_version : VersionRow;
  row_target : option string;
  row_path : option string;
  row_compression : option string;
  row_file_size : option Z;
  row_file_hash : option string;
  row_discovered_at : option Z
}.

(** [LeftJoinRow] ([models/join.rs]). *)
Record LeftJoinRow := mkLeftJoinRow {
  lj_file : option FileRow;
  lj_version : VersionRow
}.

(** [FromRow for LeftJoinRow]. *)
Definition left_join_row_from_row (row : SqlRow) : (LeftJoinRow + SqlxError)%type :=
  let version := row_version row in
  match row_target row, row_path row, row_compression row,
        row_file_size row, row_file_hash row, row_discovered_at row with
  | Some target, Some path, Some compression, Some file_size, Some file_hash, Some discovered_at =>
      inl {| lj_file := Some {| fr_target := target; fr_path := path;
                                      fr_compression := compression;
                                      fr_file_size := file_size;
                                      fr_file_hash := file_hash;
                                      fr_content_hash := vr_content_hash version;
                                      fr_discovered_at := discovered_at |};
                   lj_version := version |}
  | None, None, None, None, None, None =>
      inl {| lj_file := None; lj_version := version |}
  | _, _, _, _, _, _ => inr (ColumnDecode "file columns")
  end.

(** [TryFrom<LeftJoinRow> for (Option<File>, Version)]. *)
Definition pair_of_left_join_row (j : LeftJoinRow) : result (option File * Version) :=
  file <- match lj_file j with
          | None => Ok None
          | Some fr => f <- file_of_file_row fr ;; Ok (Some f)
          end ;;
  version <- version_of_version_row (lj_version j) ;;
  Ok (file, version).

(** [query_as(..).fetch_all(..).or_raise(|| ErrorKind::Database)]: decoding
    every row with [FromRow]; a decode failure is a database error whose
    source is the sqlx error. *)
Fixpoint fetch_all_left_join (rows : list SqlRow) : result (list LeftJoinRow) :=
  match rows with
  | [] => Ok []
  | r :: rest =>
      match left_join_row_from_row r with
      | inr e => Err (Database (Some e))
      | inl j => js <- fetch_all_left_join rest ;; Ok (j :: js)
      end
  end.

(** Modelled from the spec: [queries/get_by_content_hash.sql] (not in the
    sources), [SELECT v.*, f.* FROM versions v LEFT JOIN files f ON
    f.content_hash = v.content_hash WHERE v.content_hash = ?]: a version
    without files gives one row whose file columns are all NULL. *)
Definition left_join_by_content_hash (content_hash_ : string) (db : Db) : list SqlRow :=
  flat_map (fun vr =>
    match filter (fun fr => String.eqb (fr_content_hash fr) (vr_content_hash vr)) (files db) with
    | [] => [{| row_version := vr; row_target := None; row_path := None;
                row_compression := None; row_file_size := None;
                row_file_hash := None; row_discovered_at := None |}]
    | frs => map (fun fr => {| row_version := vr; row_target := Some (fr_target fr);
                               row_path := Some (fr_path fr);
                               row_compression := Some (fr_compression fr);
                               row_file_size := Some (fr_file_size fr);
                               row_file_hash := Some (fr_file_hash fr);
                               row_discovered_at := Some (fr_discovered_at fr) |}) frs
    end)
    (filter (fun vr => String.eqb (vr_content_hash vr) content_hash_) (versions db)).

(** Modelled from the spec: grouping of left-join pairs by version hash
    (the orphan-aware [group_optional_files_by_version] is commented out in
    [repo.rs]; an absent file adds nothing to its version's list). Groups are
    kept in first-seen order. *)
Fixpoint group_optional_files_by_version (rows : list (option File * Version))
    (acc : list (string * (Version * list File))) : list (Version * list File) :=
  match rows with
  | [] => map snd acc
  | (file, version) :: rest =>
      let add := match file with Some f => [f] | None => [] end in
      let acc' :=
        if existsb (fun e => String.eqb (fst e) (hash version)) acc
        then map (fun e => if String.eqb (fst e) (hash version)
                           then (fst e, (fst (snd e), snd (snd e) ++ add)) else e) acc
        else acc ++ [(hash version, (version, add))] in
      group_optional_files_by_version rest acc'
  end.

(** [Repository::get_by_content_hash], on the rows the query returns. *)
Definition get_by_content_hash_rows (rows : list SqlRow)
    : result (option (Version * list File)) :=
  js <- fetch_all_left_join rows ;;
  match js with
  | [] => Ok None
  | _ =>
      pairs <- collect pair_of_left_join_row js ;;
      Ok (hd_error (group_optional_files_by_version pairs []))
  end.

Definition get_by_content_hash (content_hash_ : string) (db : Db)
    : result (option (Version * list File)) :=
  get_by_content_hash_rows (left_join_by_content_hash content_hash_ db).

(** [group_files_by_version] ([repo.rs]): a map from version hash to the
    first version seen with it and the files pushed under it. The
    [HashMap]'s iteration order is unspecified; [acc] keeps the entries in
    first-seen order, and what is proved of the result does not depend on
    that order. *)
Fixpoint group_files_by_version (rows : list (File * Version))
    (acc : list (string * (Version * list File))) : list (Version * list File) :=
  match rows with
  | [] => map snd acc
  | (file, version) :: rest =>
      let acc' :=
        if existsb (fun e => String.eqb (fst e) (hash version)) acc
        then map (fun e => if String.eqb (fst e) (hash version)
                           then (fst e, (fst (snd e), snd (snd e) ++ [file])) else e) acc
        else acc ++ [(hash version, (version, [file]))] in
      group_files_by_version rest acc'
  end.

(** [Repository::list_versions_for_target], on the rows its query returns. *)
Definition list_versions_for_target_rows (rows : list (FileRow * VersionRow))
    : result (list (Version * list File)) :=
  pairs <- collect pair_of_join_row rows ;;
  Ok (group_files_by_version pairs []).

(** The conversion shared by [Repository::list_all_work_ids] and
    [Repository::list_all_work_ids_for_target], on the [i64] ids their
    queries return: [u64::try_from] on each, collected. *)
Definition work_ids_of_rows (ids : list Z) : result (list Z) :=
  collect (fun id => try_range 0 (2 ^ 64 - 1) id "work id") ids.
(** Whether all file columns of a row are NULL / all are present. *)
Definition is_none {A} (o : option A) : bool := match o with None => true | Some _ => false end.
Definition file_cols_null (r : SqlRow) : bool :=
  is_none (row_target r) && is_none (row_path r) && is_none (row_compression r) &&
  is_none (row_file_size r) && is_none (row_file_hash r) && is_none (row_discovered_at r).
Definition file_cols_present (r : SqlRow) : bool :=
  negb (is_none (row_target r)) && negb (is_none (row_path r)) &&
  negb (is_none (row_compression r)) && negb (is_none (row_file_size r)) &&
  negb (is_none (row_file_hash r)) && negb (is_none (row_discovered_at r)).

(** Rows that decode: the well-formedness the scan relies on. *)
Definition version_ok (v : Version) : Prop :=
  forall vr, version_row_of_version v = Ok vr -> exists v', version_of_version_row vr = Ok v'.
Definition versions_decode (db : Db) : Prop :=
  forall vr, In vr (versions db) -> exists v, version_of_version_row vr = Ok v.
(** The ranges of [FileMeta]'s [u64] size (that also fits the [i64] column)
    and of its [UtcDateTime]. *)
Definition meta_wf (m : FileMeta) : Prop :=
  0 <= size m <= I64_MAX /\ TS_MIN <= discovered_at m <= TS_MAX.

End Cache.

(* ------------------------------------------------------------------------- *)
(** ** crates/library: single-file scan and organize *)

Module Library.
Import Extract Compress Cache.

(** A file held by the storage backend. *)
Record Entry := mkEntry {
  e_path : string;
  e_bytes : string;
  e_compression : Compression;
  e_discovered_at : Z
}.

(** Operations issued to the storage backends, in order. *)
Inductive BackendOp :=
| OpExists (p : string)
| OpStat (p : string)
| OpRead (p : string)
| OpWrite (p : string)
| OpDelete (p : string)
| OpRename (src dst : string)
| OpTrashWrite (name : string).

(** Everything the pipelines touch: the backend's files, the cache database
    and the log of backend operations. *)
Record World := mkWorld {
  entries : list Entry;
  db : Db;
  ops : list BackendOp
}.

Inductive outcome (E A : Type) :=
| Done (a : A)
| Fail (e : E).
Arguments Done {E A} a.
Arguments Fail {E A} e.

(** The async functions, as state-and-error computations over [World]. *)
Definition M (E A : Type) := World -> outcome E A * World.

Definition ret {E A} (a : A) : M E A := fun w => (Done a, w).
Definition fail {E A} (e : E) : M E A := fun w => (Fail e, w).
Definition mbind {E A B} (m : M E A) (k : A -> M E B) : M E B :=
  fun w => match m w with
           | (Done a, w') => k a w'
           | (Fail e, w') => (Fail e, w')
           end.
Local Notation "x <-- m ;; k" := (mbind m (fun x => k))
  (at level 61, m at next level, right associativity).

(** [.or_raise(..)] on a cache query or a cache write. *)
Definition cache_query {E A} (q : Db -> result A) (err : E) : M E A :=
  fun w => match q (db w) with Ok a => (Done a, w) | Err _ => (Fail err, w) end.
Definition cache_write {E A} (q : Db -> result A * Db) (err : E) : M E A :=
  fun w => match q (db w) with
           | (Ok a, d) => (Done a, {| entries := entries w; db := d; ops := ops w |})
           | (Err _, d) => (Fail err, {| entries := entries w; db := d; ops := ops w |})
           end.
(** [_ = cache.xxx(..).await]: the outcome is discarded. *)
Definition cache_write_ignore {E} (q : Db -> result bool * Db) : M E unit :=
  fun w => (Done tt, {| entries := entries w; db := snd (q (db w)); ops := ops w |}).

Definition log (op : BackendOp) (w : World) : World :=
  {| entries := entries w; db := db w; ops := ops w ++ [op] |}.

Definition find_entry (p : string) (w : World) : option Entry :=
  find (fun e => String.eqb (e_path e) p) (entries w).

Definition drop_entry (p : string) (l : list Entry) : list Entry :=
  filter (fun e => negb (String.eqb (e_path e) p)) l.

Section Pipelines.

(** The backend's [name()]; BLAKE3; in-memory decompression; the external
    extractor; the path template [generate_with_ext(version, "html", c)];
    stream-to-stream recompression ([convert]). *)
Variable backend_name : string.
Variable blake3 : string -> string.
Variable decompress : Compression -> string -> option string.
Variable extract : string -> option Version.
Variable generate : Version -> Compression -> option string.
Variable convert : Compression -> Compression -> string -> option string.
Variable cache : Repository.

(** [Context]: target compression and whether a trash backend is set. *)
Record Context := mkContext {
  ctx_compression : option Compression;
  ctx_trash : bool
}.
Variable ctx : Context.

(** Backend primitives; a missing path is [NotFound]. *)
Inductive StorageError := NotFoundErr (p : string).

Definition backend_exists {E} (p : string) : M E bool :=
  fun w => (Done (if find_entry p w then true else false), log (OpExists p) w).

Definition backend_read (p : string) : M StorageError string :=
  fun w => match find_entry p w with
           | Some e => (Done (e_bytes e), log (OpRead p) w)
           | None => (Fail (NotFoundErr p), log (OpRead p) w)
           end.

Definition backend_stat (p : string) : M StorageError FileMeta :=
  fun w => match find_entry p w with
           | Some e => (Done {| target := backend_name; path := p;
                                compression := e_compression e;
                                size := Z.of_nat (String.length (e_bytes e));
                                discovered_at := e_discovered_at e |},
                        log (OpStat p) w)
           | None => (Fail (NotFoundErr p), log (OpStat p) w)
           end.

Definition backend_delete (p : string) : M StorageError unit :=
  fun w => match find_entry p w with
           | Some _ => (Done tt, {| entries := drop_entry p (entries w); db := db w;
                                   ops := ops w ++ [OpDelete p] |})
           | None => (Fail (NotFoundErr p), log (OpDelete p) w)
           end.

Definition backend_write (p : string) (bytes : string) (c : Compression) (now : Z)
    : M StorageError unit :=
  fun w => (Done tt, {| entries := drop_entry p (entries w) ++ [mkEntry p bytes c now];
                       db := db w; ops := ops w ++ [OpWrite p] |}).

Definition backend_rename (src dst : string) : M StorageError unit :=
  fun w => match find_entry src w with
           | Some e => (Done tt, {| entries := drop_entry dst (drop_entry src (entries w))
                                              ++ [mkEntry dst (e_bytes e) (e_compression e)
                                                          (e_discovered_at e)];
                                   db := db w; ops := ops w ++ [OpRename src dst] |})
           | None => (Fail (NotFoundErr src), log (OpRename src dst) w)
           end.

Definition or_raise {E' E A} (m : M E' A) (err : E) : M E A :=
  fun w => match m w with (Done a, w') => (Done a, w') | (Fail _, w') => (Fail err, w') end.

(** [ScanEffort], [Scan], [scan::error::ErrorKind]. *)
Inductive ScanEffort := Cached | Recalculated | Processed.

Record Scan := mkScan {
  scan_file : File;
  scan_version : Version;
  effort : ScanEffort
}.

Inductive ScanErrorKind := SCache | SStorage | SCompression | SExtract.

Definition with_hashes (m : FileMeta) (fh ch : string) : File :=
  {| meta := m; file_hash := fh; content_hash := ch |}.

(** The Recalculated/Processed tail of [scan_file_inner]. *)
Definition scan_extract (file : FileMeta) (fh : string) (bytes : string) (eff : ScanEffort)
    : M ScanErrorKind Scan :=
  match decompress (compression file) bytes with
  | None => fail SCompression
  | Some content =>
      match extract content with
      | None => fail SExtract
      | Some version =>
          let file := with_hashes file fh (hash version) in
          _ <-- cache_write (upsert cache file version) SCache ;;
          ret {| scan_file := file; scan_version := version; effort := eff |}
      end
  end.

(** [scan_file_inner] after the path-and-size lookup missed: read, hash,
    probe with [exists], then reuse, recalculate or process. *)
Definition scan_read_and_probe (file : FileMeta) : M ScanErrorKind Scan :=
  bytes <-- or_raise (backend_read (path file)) SStorage ;;
  let fh := blake3 bytes in
  existing <-- cache_query (exists_ backend_name (path file) fh) SCache ;;
  match existing with
  | ExactMatch _ _ | HashMismatch _ _ =>
      _ <-- cache_write (delete_by_target_path cache backend_name (path file)) SCache ;;
      scan_extract file fh bytes Recalculated
  | LocatedElsewhere other version =>
      let file := with_hashes file fh (content_hash other) in
      _ <-- cache_write (upsert cache file version) SCache ;;
      ret {| scan_file := file; scan_version := version; effort := Cached |}
  | NotFound => scan_extract file fh bytes Processed
  end.

(** [scan_file_inner]; the input, in any hash state, enters as its
    [FileMeta] ([strip_hashes]). *)
Definition scan_file_inner (file : FileMeta) : M ScanErrorKind Scan :=
  existing <-- cache_query (get_by_target_path backend_name (path file)) SCache ;;
  match existing with
  | Some (cached_file, version) =>
      if size file =? size (meta cached_file)
      then ret {| scan_file := cached_file; scan_version := version; effort := Cached |}
      else scan_read_and_probe file
  | None => scan_read_and_probe file
  end.

(** [organize::Action] and [organize::error::ErrorKind]; [OFuel] is the
    model's own recursion budget running out and is not a source error. *)
Inductive Action :=
| Renamed (p : string)
| AlreadyCorrect (p : string)
| CleanedUp (p : string).

Inductive OrganizeErrorKind :=
| OStorage | OCache | OTemplate | OCompression | OConflict | OScan | OFuel.

(** [MAX_CONFLICT_DEPTH]. *)
Definition MAX_CONFLICT_DEPTH : nat := 5.

(** [scan_file_inner] as the organize code matches on it: an [Extract]
    failure is told apart from the others. *)
Definition scan_for_organize (file : FileMeta)
    : M OrganizeErrorKind (option (File * Version)) :=
  fun w => match scan_file_inner file w with
           | (Done s, w') => (Done (Some (scan_file s, scan_version s)), w')
           | (Fail SExtract, w') => (Done None, w')
           | (Fail _, w') => (Fail OScan, w')
           end.

(** The rename-or-transcode tail of [organize_file_inner]. *)
Definition move_to (file : File) (compression_source compression_target : Compression)
    (correct_location : string) : M OrganizeErrorKind Action :=
  _ <-- cache_write_ignore (delete_by_target_path cache (target (meta file)) (path (meta file))) ;;
  _ <-- (if compression_eqb compression_source compression_target
         then or_raise (backend_rename (path (meta file)) correct_location) OStorage
         else bytes <-- or_raise (backend_read (path (meta file))) OStorage ;;
              match convert compression_source compression_target bytes with
              | None => fail OCompression
              | Some converted =>
                  _ <-- or_raise (backend_write correct_location converted compression_target
                                    (discovered_at (meta file))) OStorage ;;
                  or_raise (backend_delete (path (meta file))) OStorage
              end) ;;
  _ <-- cache_write_ignore (update_target_path cache (target (meta file)) (path (meta file))
                              correct_location) ;;
  ret (Renamed correct_location).

(** The trash branch of [handle_conflict]: read the incoming file, write it
    to the trash backend under [{file_hash}-{now}.html{ext}], delete it. *)
Definition trash_write {E} (incoming : File) (bytes : string) : M E unit :=
  fun w => (Done tt, log (OpTrashWrite (file_hash incoming)) w).

Definition trash_incoming (incoming : File) : M OrganizeErrorKind unit :=
  bytes <-- or_raise (backend_read (path (meta incoming))) OStorage ;;
  _ <-- trash_write incoming bytes ;;
  or_raise (backend_delete (path (meta incoming))) OStorage.

(** [organize_file_inner] and [handle_conflict], mutually recursive; [fuel]
    bounds the nesting. The file enters as its [FileMeta]: the source only
    reads its target and path, and hands it to [scan_file_inner], which strips
    its hashes. *)
Fixpoint organize_file_inner (fuel : nat) (file : FileMeta) (depth : list string)
    : M OrganizeErrorKind Action :=
  match fuel with
  | O => fail OFuel
  | S fuel' =>
  if negb (String.eqb (target file) backend_name) then fail OStorage else
  present <-- backend_exists (path file) ;;
  if negb present then
    _ <-- cache_write (delete_by_target_path cache (target file) (path file)) OCache ;;
    ret (CleanedUp (path file))
  else
  cached <-- cache_query (get_by_target_path (target file) (path file)) OCache ;;
  pair <-- (match cached with
            | Some r => ret (Some r)
            | None => scan_for_organize file
            end) ;;
  match pair with
  | None =>
      _ <-- or_raise (backend_delete (path file)) OStorage ;;
      ret (CleanedUp (path file))
  | Some (file, version) =>
      let compression_source := compression (meta file) in
      let compression_target :=
        match ctx_compression ctx with Some c => c | None => compression_source end in
      match generate version compression_target with
      | None => fail OTemplate
      | Some correct_location =>
          if String.eqb (path (meta file)) correct_location
          then ret (AlreadyCorrect (path (meta file)))
          else
          fun w =>
            match backend_stat correct_location w with
            | (Done existing, w1) =>
                match handle_conflict fuel' file existing depth w1 with
                | (Done (Some r), w2) => (Done r, w2)
                | (Done None, w2) =>
                    move_to file compression_source compression_target correct_location w2
                | (Fail e, w2) => (Fail e, w2)
                end
            | (Fail (NotFoundErr _), w1) =>
                move_to file compression_source compression_target correct_location w1
            end
      end
  end
  end
with handle_conflict (fuel : nat) (incoming : File) (existing : FileMeta)
    (depth : list string) : M OrganizeErrorKind (option Action) :=
  match fuel with
  | O => fail OFuel
  | S fuel' =>
  let existing_path := path existing in
  cached <-- cache_query (get_by_target_path (target (meta incoming)) (path existing)) OCache ;;
  found <-- (match cached with
             | Some (c, _) => ret (Some c)
             | None => r <-- scan_for_organize existing ;;
                       ret (match r with Some (f, _) => Some f | None => None end)
             end) ;;
  match found with
  | None =>
      _ <-- or_raise (backend_delete existing_path) OStorage ;;
      ret None
  | Some existing =>
      if String.eqb (content_hash incoming) (content_hash existing) then
        _ <-- or_raise (backend_delete (path (meta incoming))) OStorage ;;
        ret (Some (CleanedUp (path (meta incoming))))
      else if Nat.ltb MAX_CONFLICT_DEPTH (List.length depth)
              || existsb (String.eqb (path (meta existing))) depth
      then fail OConflict
      else
        let depth := depth ++ [path (meta existing)] in
        fun w =>
          match organize_file_inner fuel' (meta existing) depth w with
          | (Done (AlreadyCorrect _), w1) =>
              if ctx_trash ctx then
                match trash_incoming incoming w1 with
                | (Done _, w2) => (Fail OConflict, w2)
                | (Fail e, w2) => (Fail e, w2)
                end
              else (Fail OConflict, w1)
          | (Done _, w1) => (Done None, w1)
          | (Fail e, w1) => (Fail e, w1)
          end
  end
  end.

End Pipelines.
End Library.

(* ------------------------------------------------------------------------- *)
(** ** crates/library/src/scan/stream.rs: the event loop of [scan_inner] *)

Module ScanStream.

(** [MAX_PROCESS_CONCURRENCY]. *)
Definition MAX_PROCESS_CONCURRENCY : nat := 100.

(** [ScanEvent], with the error items of the stream; a scanned item is
    named by its path. *)
Inductive ScanEvent :=
| Started
| FileDiscovered (p : string)
| DiscoveryComplete (total : nat)
| Scanned (p : string)
| ListingFailed
| ScanFailed (p : string)
| Complete.

(** What [backend.list_stream(prefix)] yields: a file, or an in-stream error. *)
Inductive Listed := LOk (p : string) | LErr.

(** Which [select!] arm completes when both are enabled and the discovery arm
    is not ready first: [PollList] lets the biased discovery arm win; with
    [PollProc] the listing is still pending and a processing future is the
    first to complete. *)
Inductive Poll := PollList | PollProc.

(** Loop state: the rest of the listing, [discovery_complete], [discovered],
    [not_processing_yet] (a Vec used as a stack) and [processing]. *)
Record LoopState := mkLoopState {
  listing : list Listed;
  discovery_complete : bool;
  discovered : nat;
  not_processing_yet : list string;
  processing : list string
}.

(** The outcome of running one queued file through [scan_file_inner]. *)
Section Loop.
Variable scan_ok : string -> bool.

Definition scanned_event (p : string) : ScanEvent :=
  if scan_ok p then Scanned p else ScanFailed p.

(** The discovery arm. *)
Definition discovery_arm (st : LoopState) : list ScanEvent * LoopState :=
  match listing st with
  | LOk p :: rest =>
      let '(processing', npy') :=
        if Nat.ltb (List.length (processing st)) MAX_PROCESS_CONCURRENCY
        then (processing st ++ [p], not_processing_yet st)
        else (processing st, not_processing_yet st ++ [p]) in
      ([FileDiscovered p],
       {| listing := rest; discovery_complete := discovery_complete st;
          discovered := S (discovered st); not_processing_yet := npy';
          processing := processing' |})
  | LErr :: rest =>
      ([ListingFailed],
       {| listing := rest; discovery_complete := discovery_complete st;
          discovered := discovered st; not_processing_yet := not_processing_yet st;
          processing := processing st |})
  | [] =>
      ([DiscoveryComplete (discovered st)],
       {| listing := []; discovery_complete := true;
          discovered := discovered st; not_processing_yet := not_processing_yet st;
          processing := processing st |})
  end.

(** The processing arm: the completing future is the first of [processing]
    (the set is unordered; which one finishes does not matter here); then a
    queued future is promoted with [pop]. *)
Definition processing_arm (st : LoopState) : list ScanEvent * LoopState :=
  match processing st with
  | [] => ([], st)
  | p :: rest =>
      let '(processing', npy') :=
        match rev (not_processing_yet st) with
        | q :: rnpy => (rest ++ [q], rev rnpy)
        | [] => (rest, [])
        end in
      ([scanned_event p],
       {| listing := listing st; discovery_complete := discovery_complete st;
          discovered := discovered st; not_processing_yet := npy';
          processing := processing' |})
  end.

(** The [else] arm when [not_processing_yet] is not empty. *)
Definition else_refill (st : LoopState) : LoopState :=
  let batch := Nat.min MAX_PROCESS_CONCURRENCY (List.length (not_processing_yet st)) in
  {| listing := listing st; discovery_complete := discovery_complete st;
     discovered := discovered st;
     not_processing_yet := skipn batch (not_processing_yet st);
     processing := processing st ++ firstn batch (not_processing_yet st) |}.

(** The [loop { select! { biased; .. } }] followed by [yield Complete], driven
    by a schedule of poll outcomes; [None] when [fuel] runs out. *)
Fixpoint run_loop (fuel : nat) (sched : list Poll) (st : LoopState)
    : option (list ScanEvent) :=
  match fuel with
  | O => None
  | S fuel' =>
      let disc_enabled := negb (discovery_complete st) in
      let proc_enabled := match processing st with [] => false | _ => true end in
      let choice := match sched with c :: _ => c | [] => PollList end in
      let sched' := match sched with _ :: s => s | [] => [] end in
      if disc_enabled && (negb proc_enabled || match choice with PollList => true | PollProc => false end)
      then let '(evs, st') := discovery_arm st in
           option_map (fun rest => evs ++ rest) (run_loop fuel' sched' st')
      else if proc_enabled
      then let '(evs, st') := processing_arm st in
           option_map (fun rest => evs ++ rest) (run_loop fuel' sched' st')
      else match not_processing_yet st with
           | [] => Some [Complete]
           | _ => run_loop fuel' sched (else_refill st)
           end
  end.

(** [scan_inner]: [Started], then the loop. *)
Definition scan_inner (fuel : nat) (sched : list Poll) (listed : list Listed)
    : option (list ScanEvent) :=
  option_map (fun rest => Started :: rest)
    (run_loop fuel sched {| listing := listed; discovery_complete := false; discovered := 0;
                            not_processing_yet := []; processing := [] |}).

End Loop.

(** Events that may precede [DiscoveryComplete], events that may follow it,
    and the counts of discovered files and of listed files. *)
Definition is_pre_event (e : ScanEvent) : bool :=
  match e with
  | FileDiscovered _ | Scanned _ | ScanFailed _ | ListingFailed => true
  | _ => false
  end.
Definition is_post_event (e : ScanEvent) : bool :=
  match e with Scanned _ | ScanFailed _ => true | _ => false end.
Definition is_discovered (e : ScanEvent) : bool :=
  match e with FileDiscovered _ => true | _ => false end.
Definition is_listed_ok (l : Listed) : bool :=
  match l with LOk _ => true | LErr => false end.
Definition count_discovered (evs : list ScanEvent) : nat := List.length (filter is_discovered evs).
Definition count_listed (ls : list Listed) : nat := List.length (filter is_listed_ok ls).

(** The paths of the listed files, of the [FileDiscovered] events, and of the
    [Scanned] and [ScanFailed] events. *)
Fixpoint lok_paths (ls : list Listed) : list string :=
  match ls with
  | [] => []
  | LOk p :: rest => p :: lok_paths rest
  | LErr :: rest => lok_paths rest
  end.
Fixpoint discovered_paths (evs : list ScanEvent) : list string :=
  match evs with
  | [] => []
  | FileDiscovered p :: rest => p :: discovered_paths rest
  | _ :: rest => discovered_paths rest
  end.
Fixpoint scanned_paths (evs : list ScanEvent) : list string :=
  match evs with
  | [] => []
  | (Scanned p | ScanFailed p) :: rest => p :: scanned_paths rest
  | _ :: rest => scanned_paths rest
  end.

(** The concurrency bound: at most [MAX_PROCESS_CONCURRENCY] scans in
    flight, and files wait in [not_processing_yet] only while the bound is
    reached. *)
Definition loop_inv (st : LoopState) : Prop :=
  (List.length (processing st) <= MAX_PROCESS_CONCURRENCY)%nat /\
  (not_processing_yet st <> [] -> List.length (processing st) = MAX_PROCESS_CONCURRENCY).

(** The state [scan_inner] starts the loop in. *)
Definition initial_state (listed : list Listed) : LoopState :=
  {| listing := listed; discovery_complete := false; discovered := 0;
     not_processing_yet := []; processing := [] |}.
End ScanStream.

(* ------------------------------------------------------------------------- *)
(** ** crates/library/src/template.rs: normalizing generated paths *)

Module PathTemplate.
Import Compress.

(** [library::error::ErrorKind]. *)
Inductive ErrorKind := Template.

Inductive result (A : Type) :=
| Ok (a : A)
| Err (e : ErrorKind).
Arguments Ok {A} a.
Arguments Err {A} e.

(** [char::is_whitespace] on ASCII: tab, line feed, vertical tab, form feed,
    carriage return and space. *)
Definition is_whitespace (c : ascii) : bool :=
  let n := nat_of_ascii c in
  (Nat.leb 9 n && Nat.leb n 13) || Nat.eqb n 32.

Fixpoint trim_start_matches (p : ascii -> bool) (l : list ascii) : list ascii :=
  match l with
  | c :: rest => if p c then trim_start_matches p rest else l
  | [] => []
  end.

(** [str::trim_matches]: both ends. *)
Definition trim_matches (p : ascii -> bool) (l : list ascii) : list ascii :=
  rev (trim_start_matches p (rev (trim_start_matches p l))).

(** [str::trim]. *)
Definition trim (l : list ascii) : list ascii := trim_matches is_whitespace l.

(** [PathGenerator::normalize]: trim, split on ['/'], trim each segment,
    join with ['/'], then [validate_path]. *)
Definition normalize (s : string) : result string :=
  let path := StoragePath.join_slash
                (map trim (StoragePath.split_slash (trim (list_ascii_of_string s)) [])) in
  match StoragePath.validate_path (string_of_list_ascii path) with
  | StoragePath.Ok cs => Ok (StoragePath.path_string cs)
  | StoragePath.Err _ => Err Template
  end.

(** [PathGenerator::generate]; [rendered] is the template's output
    ([self.template.render(..).to_string()]), [None] when rendering fails.
    The [upon] engine itself is not modelled. *)
Definition generate (rendered : option string) : result string :=
  match rendered with
  | None => Err Template
  | Some path => normalize path
  end.

(** [PathGenerator::generate_with_ext]. *)
Definition generate_with_ext (rendered : option string) (ext : string)
    (compression : option Compression) : result string :=
  match generate rendered with
  | Err e => Err e
  | Ok path =>
      let compression := match compression with Some c => c | None => None_ end in
      Ok (path ++ "." ++
          string_of_list_ascii (trim_matches (fun c => Ascii.eqb c "."%char)
                                  (trim (list_ascii_of_string ext)))
          ++ extension compression)%string
  end.

End PathTemplate.

(* ------------------------------------------------------------------------- *)
(** ** Sample inputs *)

Module Samples.
Import Extract Compress Cache.

Definition ver (ch len lm : Z) : Version :=
  {| hash := ""; length := len; crc32 := 0;
     metadata := {| work_id := 42; title := "t"; chapters := {| written := ch; total := None |};
                    words := 1000; published := 0; last_modified := lm |};
     extracted_at := 0 |}.

Definition vA := ver 10 1000 1.
Definition vB := ver 6 500 2.
Definition vC := ver 4 150 3.

Definition sample_meta : FileMeta :=
  {| target := "local"; path := "Fandom/work.html.bz2"; compression := Bzip2;
     size := 1024; discovered_at := 1700000000 |}.
Definition sample_file (ch : string) : File :=
  {| meta := sample_meta; file_hash := "fh"; content_hash := ch |}.
Definition sample_version : Version :=
  {| hash := "h1"; length := 4096; crc32 := 7;
     metadata := {| work_id := 12345; title := "t"; chapters := {| written := 1; total := Some 1 |};
                    words := 500; published := 19000; last_modified := 19100 |};
     extracted_at := 1700000000 |}.
Definition empty_db : Db := {| versions := []; files := [] |}.

Definition sample_db : Db :=
  snd (upsert (mkRepository false) (sample_file "h1") sample_version empty_db).

Definition sample_version_row : VersionRow :=
  {| vr_content_hash := "h1"; vr_content_crc32 := 7; vr_work_id := 12345;
     vr_content_size := 4096; vr_title := "t"; vr_chapters_written := 1;
     vr_chapters_total := Some 1; vr_words := 500;
     vr_published_on := 19000 * 86400; vr_last_modified := 19100 * 86400;
     vr_extracted_at := 1700000000 |}.
(** A version row no file row references. *)
Definition orphan_db : Db := {| versions := [sample_version_row]; files := [] |}.
(** A left-join row with some file columns NULL and some not. *)
Definition mixed_row : SqlRow :=
  {| row_version := sample_version_row; row_target := Some "local"%string; row_path := None;
     row_compression := None; row_file_size := None; row_file_hash := None;
     row_discovered_at := None |}.

(** A backend holding the sample file, an empty cache, an identity hash, an
    identity decompressor and an extractor that always yields the sample
    version. *)
Definition scan_world : Library.World :=
  {| Library.entries := [Library.mkEntry "Fandom/work.html.bz2" "bytes" Bzip2 1700000000];
     Library.db := empty_db; Library.ops := [] |}.
Definition id_blake3 (s : string) : string := s.
Definition plain_decompress (c : Compression) (s : string) : option string := Some s.
Definition sample_extract (s : string) : option Version := Some sample_version.

(** The sample file, cached, and a template that places it where it is. *)
Definition organize_world : Library.World :=
  {| Library.entries := [Library.mkEntry "Fandom/work.html.bz2" "bytes" Bzip2 1700000000];
     Library.db := sample_db; Library.ops := [] |}.
Definition sample_generate (v : Version) (c : Compression) : option string :=
  Some "Fandom/work.html.bz2"%string.
Definition plain_convert (a b : Compression) (s : string) : option string := Some s.
Definition plain_context : Library.Context := Library.mkContext None false.

(** A chain of seven cached files [w0.html] ... [w6.html], of seven
    different versions; the template sends the version of [wi.html] to
    [w(i+1).html], and [w7.html] is free. *)
Definition digit (i : nat) : string := String (ascii_of_nat (48 + i)) EmptyString.
Definition chain_path (i : nat) : string := ("w" ++ digit i ++ ".html")%string.
Definition chain_hash (i : nat) : string := ("h" ++ digit i)%string.
Definition chain_meta (i : nat) : FileMeta :=
  {| target := "local"; path := chain_path i; compression := None_;
     size := 1; discovered_at := 0 |}.
Definition chain_file (i : nat) : File :=
  {| meta := chain_meta i; file_hash := ("f" ++ digit i)%string; content_hash := chain_hash i |}.
Definition chain_version (i : nat) : Version :=
  {| hash := chain_hash i; length := length sample_version; crc32 := crc32 sample_version;
     metadata := metadata sample_version; extracted_at := extracted_at sample_version |}.
Definition chain_db : Db :=
  fold_left (fun d i => snd (upsert (mkRepository false) (chain_file i) (chain_version i) d))
    (seq 0 7) empty_db.
Definition chain_world : Library.World :=
  {| Library.entries := map (fun i => Library.mkEntry (chain_path i) "x" None_ 0) (seq 0 7);
     Library.db := chain_db; Library.ops := [] |}.
Definition chain_generate (v : Version) (c : Compression) : option string :=
  match find (fun i => String.eqb (hash v) (chain_hash i)) (seq 0 7) with
  | Some i => Some (chain_path (S i))
  | None => None
  end.
Definition is_rename (op : Library.BackendOp) : bool :=
  match op with Library.OpRename _ _ => true | _ => false end.

(** The cached sample file, absent from the backend. *)
Definition empty_world : Library.World :=
  {| Library.entries := []; Library.db := sample_db; Library.ops := [] |}.

End Samples.

(* ========================================================================= *)
(** * Properties *)

Module ExtractFacts.
Import Extract Samples.

Lemma deletion_notice_not_mutual (a b : Version) :
  0 <= written (chapters (metadata a)) -> 0 <= written (chapters (metadata b)) ->
  appears_to_be_deletion_notice a b = true -> appears_to_be_deletion_notice b a = false.
Proof.
  unfold appears_to_be_deletion_notice; intros Ha Hb H.
  apply andb_true_iff in H as [H1 _]. apply Z.ltb_lt in H1.
  apply andb_false_iff; left. apply Z.ltb_ge. lia.
Qed.

Lemma metadata_cmp_antisym (m n : Metadata) :
  metadata_cmp m n = CompOpp (metadata_cmp n m).
Proof.
  unfold metadata_cmp.
  rewrite (Z.eqb_sym (last_modified n)), (Z.eqb_sym (words n)),
    (Z.eqb_sym (written (chapters n))), (Z.eqb_sym (published n)).
  repeat match goal with
         | |- context [negb (?x =? ?y)] => destruct (x =? y); simpl
         end; try apply Z.compare_antisym; reflexivity.
Qed.

(** Antisymmetry, the part of the total-order contract that does hold (for
    chapter counts as the [u32] type has them). *)
Lemma cmp_antisymmetric (a b : Version) :
  0 <= written (chapters (metadata a)) -> 0 <= written (chapters (metadata b)) ->
  cmp a b = CompOpp (cmp b a).
Proof.
  intros Ha Hb. unfold cmp.
  destruct (appears_to_be_deletion_notice a b) eqn:Eab.
  - rewrite (deletion_notice_not_mutual a b Ha Hb Eab); reflexivity.
  - destruct (appears_to_be_deletion_notice b a) eqn:Eba; [reflexivity|].
    apply metadata_cmp_antisym.
Qed.

(** C6 (code_bug): [cmp] is not transitive. Three versions of one work
    (A: 10 chapters, 1000 bytes; B: 6 chapters, 500 bytes; C: 4 chapters,
    150 bytes; last modified on days 1, 2, 3) have A < B and B < C by
    last_modified, yet A > C, because C appears to be a deletion notice
    relative to A but not relative to B. *)
Theorem cmp_not_transitive :
  work_id (metadata vA) = work_id (metadata vB) /\
  work_id (metadata vB) = work_id (metadata vC) /\
  cmp vA vB = Lt /\ cmp vB vC = Lt /\ cmp vA vC = Gt.
Proof. repeat split; reflexivity. Qed.

End ExtractFacts.

Module PathFacts.
Import StoragePath.

Lemma validate_loop_orig (o1 o2 : list Component) (cs : list Component) (acc : list string) :
  ok_of (validate_loop o1 cs acc) = ok_of (validate_loop o2 cs acc).
Proof.
  revert acc; induction cs as [|c cs IH]; intros acc; [reflexivity|].
  destruct c; simpl; try reflexivity; try apply IH.
  - destruct acc; [reflexivity|apply IH].
  - destruct (contains_nul s); [reflexivity|apply IH].
Qed.

Lemma validate_congr (cs1 cs2 : list Component) :
  (forall o acc, ok_of (validate_loop o cs1 acc) = ok_of (validate_loop o cs2 acc)) ->
  ok_of (validate cs1) = ok_of (validate cs2).
Proof.
  intros H. unfold validate.
  assert (E : ok_of (validate_loop cs1 cs1 []) = ok_of (validate_loop cs2 cs2 [])).
  { rewrite (validate_loop_orig cs1 cs2). apply H. }
  destruct (validate_loop cs1 cs1 []) as [[|x l]|e1], (validate_loop cs2 cs2 []) as [[|y m]|e2];
    simpl in E; try discriminate; try reflexivity.
  injection E; intros; subst; reflexivity.
Qed.

Lemma validate_loop_skip_head (hd : list Component) (cs : list Component) o acc :
  (forall c, In c hd -> c = RootDir \/ c = CurDir) ->
  validate_loop o (hd ++ cs) acc = validate_loop o cs acc.
Proof.
  induction hd as [|c hd IH]; intros H; [reflexivity|].
  destruct (H c (or_introl eq_refl)) as [-> | ->]; simpl;
    apply IH; intros c' Hc'; apply H; right; exact Hc'.
Qed.

Lemma components_body (s : string) :
  exists hd, (forall c, In c hd -> c = RootDir \/ c = CurDir) /\
  components s = hd ++ flat_map body_component (split_slash (list_ascii_of_string s) []).
Proof.
  unfold components. eexists; split; [|reflexivity].
  intros c Hc.
  repeat match goal with
         | H : In _ (match ?x with _ => _ end) |- _ => destruct x
         end;
    simpl in Hc; intuition congruence.
Qed.

Lemma validate_path_slash (s : string) :
  ok_of (validate_path (String "/" s)) = ok_of (validate_path s).
Proof.
  unfold validate_path. apply validate_congr. intros o acc.
  destruct (components_body (String "/" s)) as [h1 [H1 E1]].
  destruct (components_body s) as [h2 [H2 E2]].
  rewrite E1, E2, !validate_loop_skip_head by assumption.
  reflexivity.
Qed.

Lemma validate_loop_prefix (o cs : list Component) (p : string) (acc : list string) :
  In (Prefix p) cs -> ok_of (validate_loop o cs acc) = None.
Proof.
  revert acc; induction cs as [|c cs IH]; intros acc Hin; [destruct Hin|].
  destruct Hin as [Hc|Hin]; [subst c; reflexivity|].
  destruct c; simpl; try reflexivity; try (apply IH; exact Hin).
  - destruct acc; [reflexivity|apply IH; exact Hin].
  - destruct (contains_nul s); [reflexivity|apply IH; exact Hin].
Qed.

(** C3 (counterexample): the absolute Unix path ["/etc/passwd"] is not
    rejected; it validates to the relative path ["etc/passwd"]. *)
Lemma validate_absolute_accepted :
  validate_path "/etc/passwd" = Ok ["etc"; "passwd"]%string.
Proof. reflexivity. Qed.

(** C3 (amended): every input whose components include a drive prefix is
    rejected; an absolute input is not rejected for being absolute: its
    leading root is dropped and it validates exactly like the same path
    without the leading ['/'] (same normalized result, or rejected alike). *)
Theorem validate_prefix_rejected_root_stripped :
  (forall cs p, In (Prefix p) cs -> is_err (validate cs) = true) /\
  (forall s, ok_of (validate_path (String "/" s)) = ok_of (validate_path s)).
Proof.
  split.
  - intros cs p Hin. unfold validate.
    pose proof (validate_loop_prefix cs cs p [] Hin) as H.
    destruct (validate_loop cs cs []) as [[|x l]|e]; try discriminate; reflexivity.
  - exact validate_path_slash.
Qed.

End PathFacts.

Module CacheFacts.
Import Extract Compress Cache Samples.

Local Notation "x <- r ;; k" := (bind r (fun x => k))
  (at level 61, r at next level, right associativity).

Lemma version_row_hash (v : Version) (vr : VersionRow) :
  version_row_of_version v = Ok vr -> vr_content_hash vr = hash v.
Proof.
  unfold version_row_of_version, try_range, bind.
  repeat match goal with |- context [if ?c then _ else _] => destruct c end;
    intros H; try discriminate; injection H as <-; reflexivity.
Qed.

Lemma file_row_fields (f : File) (fr : FileRow) :
  file_row_of_file f = Ok fr ->
  fr_content_hash fr = content_hash f /\ fr_target fr = target (meta f) /\
  fr_path fr = path (meta f).
Proof.
  unfold file_row_of_file, try_range, bind.
  destruct (_ && _); intros H; try discriminate; injection H as <-; auto.
Qed.

Lemma upsert_version_sql_has (vr : VersionRow) (db : Db) :
  exists vr', In vr' (versions (upsert_version_sql vr db)) /\
              vr_content_hash vr' = vr_content_hash vr.
Proof.
  unfold upsert_version_sql.
  destruct (existsb _ (versions db)) eqn:E.
  - apply existsb_exists in E as [vr' [Hin Heq]].
    apply String.eqb_eq in Heq. exists vr'; auto.
  - exists vr; split; [|reflexivity]. simpl. apply in_or_app; right; left; reflexivity.
Qed.

Lemma upsert_version_sql_incl (vr : VersionRow) (db : Db) :
  incl (versions db) (versions (upsert_version_sql vr db)) /\
  files (upsert_version_sql vr db) = files db.
Proof.
  unfold upsert_version_sql. destruct (existsb _ _); simpl; split; try reflexivity.
  - apply incl_refl.
  - apply incl_appl, incl_refl.
Qed.

(** The outcomes of [upsert]: rejected or dry run (database untouched), a
    failed row conversion (untouched), or the committed transaction. *)
Lemma upsert_cases (repo : Repository) (f : File) (v : Version) (db : Db) :
  (content_hash f <> hash v /\ upsert repo f v db = (Err Constraint, db)) \/
  (content_hash f = hash v /\ dry_run repo = true /\ upsert repo f v db = (Ok tt, db)) \/
  (exists e, content_hash f = hash v /\ dry_run repo = false /\ upsert repo f v db = (Err e, db)) \/
  (exists vr fr, content_hash f = hash v /\ dry_run repo = false /\
     version_row_of_version v = Ok vr /\ file_row_of_file f = Ok fr /\
     upsert repo f v db = (Ok tt, upsert_file_sql fr (upsert_version_sql vr db))).
Proof.
  unfold upsert.
  destruct (String.eqb (content_hash f) (hash v)) eqn:Eh; simpl.
  - apply String.eqb_eq in Eh. right.
    destruct (dry_run repo) eqn:Ed; [left; auto|right].
    destruct (version_row_of_version v) as [vr|e] eqn:Ev;
      [|left; exists e; auto].
    destruct (file_row_of_file f) as [fr|e] eqn:Ef;
      [right; exists vr, fr; auto|left; exists e; auto].
  - left. apply String.eqb_neq in Eh. auto.
Qed.

Lemma upsert_db_ok (repo : Repository) (f : File) (v : Version) (db : Db) :
  db_ok db -> db_ok (snd (upsert repo f v db)).
Proof.
  intros Hok.
  destruct (upsert_cases repo f v db) as
    [[_ ->]|[[_ [_ ->]]|[[e [_ [_ ->]]]|[vr [fr [Hh [_ [Hv [Hf ->]]]]]]]]]; try exact Hok.
  simpl. intros r Hr. unfold upsert_file_sql in Hr. simpl in Hr.
  destruct (upsert_version_sql_incl vr db) as [Hincl Hfiles].
  apply in_app_or in Hr as [Hr|[<-|[]]].
  - apply filter_In in Hr as [Hr _]. rewrite Hfiles in Hr.
    destruct (Hok r Hr) as [vr' [Hin Heq]]. exists vr'; auto.
  - destruct (upsert_version_sql_has vr db) as [vr' [Hin Heq]].
    exists vr'; split; [exact Hin|].
    rewrite Heq, (version_row_hash v vr Hv).
    destruct (file_row_fields f fr Hf) as [-> _]. symmetry; exact Hh.
Qed.

(** C1: an upsert whose file content hash differs from the version hash is
    rejected with [Constraint] and leaves the database as it was; every upsert
    keeps each file row paired with a version row of the same content hash;
    and a committed upsert leaves the file row at its (target, path) paired
    with a version row, both with the version's hash. *)
Theorem upsert_content_hash_constraint :
  (forall repo f v db, content_hash f <> hash v -> upsert repo f v db = (Err Constraint, db)) /\
  (forall repo f v db, db_ok db -> db_ok (snd (upsert repo f v db))) /\
  (forall repo f v db db', dry_run repo = false -> upsert repo f v db = (Ok tt, db') ->
     exists fr vr, In fr (files db') /\ fr_target fr = target (meta f) /\
       fr_path fr = path (meta f) /\ fr_content_hash fr = hash v /\
       In vr (versions db') /\ vr_content_hash vr = hash v).
Proof.
  split; [|split].
  - intros repo f v db Hne.
    destruct (upsert_cases repo f v db) as
      [[_ H]|[[Hh _]|[[e [Hh _]]|[vr [fr [Hh _]]]]]]; [exact H|contradiction..].
  - exact upsert_db_ok.
  - intros repo f v db db' Hd Hu.
    destruct (upsert_cases repo f v db) as
      [[_ H]|[[_ [H _]]|[[e [_ [_ H]]]|[vr [fr [Hh [_ [Hv [Hf H]]]]]]]]];
      [rewrite H in Hu; discriminate|congruence|rewrite H in Hu; discriminate|].
    rewrite H in Hu. injection Hu as <-.
    destruct (file_row_fields f fr Hf) as [Hc [Ht Hp]].
    destruct (upsert_version_sql_has vr db) as [vr' [Hin Heq]].
    exists fr, vr'. repeat split; try assumption.
    + unfold upsert_file_sql; simpl. apply in_or_app; right; left; reflexivity.
    + congruence.
    + rewrite Heq. apply (version_row_hash v vr Hv).
Qed.

(** C10: with [dry_run] set, [upsert] still rejects a pair whose hashes
    differ ([Constraint]); a pair whose hashes agree succeeds without touching
    the database. *)
Theorem upsert_constraint_before_dry_run (repo : Repository) (f : File) (v : Version) (db : Db) :
  dry_run repo = true ->
  (content_hash f <> hash v -> upsert repo f v db = (Err Constraint, db)) /\
  (content_hash f = hash v -> upsert repo f v db = (Ok tt, db)).
Proof.
  intros Hd. unfold upsert. rewrite Hd. split; intros H.
  - apply String.eqb_neq in H. rewrite H. reflexivity.
  - apply String.eqb_eq in H. rewrite H. reflexivity.
Qed.

Lemma upsert_content_hash_constraint_witness :
  (content_hash (sample_file "h2") <> hash sample_version /\
   upsert (mkRepository false) (sample_file "h2") sample_version empty_db
     = (Err Constraint, empty_db)) /\
  db_ok (snd (upsert (mkRepository false) (sample_file "h1") sample_version empty_db)) /\
  (exists fr vr, In fr (files (snd (upsert (mkRepository false) (sample_file "h1") sample_version empty_db))) /\
     fr_target fr = "local"%string /\ fr_path fr = "Fandom/work.html.bz2"%string /\
     fr_content_hash fr = "h1"%string /\
     In vr (versions (snd (upsert (mkRepository false) (sample_file "h1") sample_version empty_db))) /\
     vr_content_hash vr = "h1"%string).
Proof.
  destruct upsert_content_hash_constraint as [H1 [H2 H3]].
  split; [|split].
  - split; [discriminate|]. apply H1. discriminate.
  - apply H2. intros fr [].
  - apply (H3 (mkRepository false) (sample_file "h1") sample_version empty_db); reflexivity.
Defined.

Lemma upsert_constraint_before_dry_run_witness :
  dry_run (mkRepository true) = true /\
  upsert (mkRepository true) (sample_file "h2") sample_version empty_db = (Err Constraint, empty_db) /\
  upsert (mkRepository true) (sample_file "h1") sample_version empty_db = (Ok tt, empty_db).
Proof.
  destruct (upsert_constraint_before_dry_run (mkRepository true) (sample_file "h2")
              sample_version empty_db eq_refl) as [Hne _].
  destruct (upsert_constraint_before_dry_run (mkRepository true) (sample_file "h1")
              sample_version empty_db eq_refl) as [_ Heq].
  split; [reflexivity|split; [apply Hne; discriminate|apply Heq; reflexivity]].
Defined.

Lemma join_rows_in (sel : FileRow -> bool) (db : Db) (fr : FileRow) (vr : VersionRow) :
  In (fr, vr) (join_rows sel db) ->
  In fr (files db) /\ sel fr = true /\ In vr (versions db) /\
  vr_content_hash vr = fr_content_hash fr.
Proof.
  unfold join_rows. rewrite in_flat_map. intros [fr' [Hf Hin]].
  apply in_map_iff in Hin as [vr' [Heq Hv]]. injection Heq as <- <-.
  apply filter_In in Hf as [Hf Hs]. apply filter_In in Hv as [Hv He].
  apply String.eqb_eq in He. auto.
Qed.

Lemma collect_in {A B} (f : A -> result B) (l : list A) (ys : list B) (y : B) :
  collect f l = Ok ys -> In y ys -> exists x, In x l /\ f x = Ok y.
Proof.
  revert ys; induction l as [|x xs IH]; simpl; intros ys H Hy.
  - injection H as <-. destruct Hy.
  - unfold bind in H. destruct (f x) as [y'|e] eqn:Ef; [|discriminate].
    destruct (collect f xs) as [ys'|e] eqn:Ec; [|discriminate].
    injection H as <-. destruct Hy as [<-|Hy].
    + exists x; auto.
    + destruct (IH ys' eq_refl Hy) as [x' [Hin Hx]]. exists x'; auto.
Qed.

Lemma file_of_file_row_fields (fr : FileRow) (f : File) :
  file_of_file_row fr = Ok f ->
  target (meta f) = fr_target fr /\ path (meta f) = fr_path fr /\
  file_hash f = fr_file_hash fr /\ content_hash f = fr_content_hash fr /\
  size (meta f) = fr_file_size fr.
Proof.
  unfold file_of_file_row, bind, try_range.
  destruct (Compress.from_str _); [|discriminate].
  repeat match goal with |- context [if ?c then _ else _] => destruct c end;
    intros H; try discriminate; injection H as <-; simpl; auto.
Qed.

Lemma pair_of_join_row_fields (row : FileRow * VersionRow) (f : File) (v : Version) :
  pair_of_join_row row = Ok (f, v) ->
  file_of_file_row (fst row) = Ok f /\ version_of_version_row (snd row) = Ok v.
Proof.
  unfold pair_of_join_row, bind.
  destruct (file_of_file_row (fst row)) as [f'|e]; [|discriminate].
  destruct (version_of_version_row (snd row)) as [v'|e]; [|discriminate].
  intros H; injection H as <- <-; auto.
Qed.

(** C2: [exists] (modelled from the spec) has four outcomes. [NotFound]: no
    record at (target, path) and no file with that hash anywhere;
    [ExactMatch] / [HashMismatch]: the record at (target, path), whose file
    hash equals / differs from the probe; [LocatedElsewhere]: no record at
    (target, path), and a recorded file elsewhere with that hash. The probe
    fails only when one of its lookups fails. *)
Theorem exists_four_outcomes (t p fh : string) (db : Db) :
  (forall r, exists_ t p fh db = Ok r ->
   match r with
   | NotFound =>
       join_rows (same_key t p) db = [] /\
       join_rows (fun fr => String.eqb (fr_file_hash fr) fh) db = []
   | ExactMatch f v =>
       get_by_target_path t p db = Ok (Some (f, v)) /\
       target (meta f) = t /\ path (meta f) = p /\ file_hash f = fh
   | HashMismatch f v =>
       get_by_target_path t p db = Ok (Some (f, v)) /\
       target (meta f) = t /\ path (meta f) = p /\ file_hash f <> fh
   | LocatedElsewhere f v =>
       join_rows (same_key t p) db = [] /\ file_hash f = fh /\
       (target (meta f) <> t \/ path (meta f) <> p) /\
       exists fr vr, In fr (files db) /\ In vr (versions db) /\
                     pair_of_join_row (fr, vr) = Ok (f, v)
   end) /\
  (forall e, exists_ t p fh db = Err e ->
   get_by_target_path t p db = Err e \/ get_by_file_hash fh db = Err e).
Proof.
  unfold exists_, bind. split.
  - intros r H.
    destruct (get_by_target_path t p db) as [[[f v]|]|e] eqn:Eg; [| |discriminate].
    + (* a record at the path *)
      unfold get_by_target_path, bind in Eg.
      destruct (join_rows (same_key t p) db) as [|row rows] eqn:Ej; [discriminate|].
      destruct (pair_of_join_row row) as [[f' v']|e] eqn:Ep; [|discriminate].
      injection Eg as <- <-.
      assert (Hrow : In row (join_rows (same_key t p) db)) by (rewrite Ej; left; reflexivity).
      destruct row as [fr vr].
      destruct (join_rows_in _ _ _ _ Hrow) as [_ [Hk _]].
      destruct (pair_of_join_row_fields _ _ _ Ep) as [Hf _].
      destruct (file_of_file_row_fields _ _ Hf) as [Ht [Hp _]]. simpl in Ht, Hp.
      unfold same_key in Hk. apply andb_true_iff in Hk as [Hkt Hkp].
      apply String.eqb_eq in Hkt, Hkp.
      assert (Eg : get_by_target_path t p db = Ok (Some (f', v'))).
      { unfold get_by_target_path, bind. rewrite Ej, Ep. reflexivity. }
      destruct (String.eqb (file_hash f') fh) eqn:Eh; injection H as <-.
      * apply String.eqb_eq in Eh. repeat split; congruence.
      * apply String.eqb_neq in Eh. repeat split; congruence.
    + (* no record at the path *)
      unfold get_by_target_path, bind in Eg.
      destruct (join_rows (same_key t p) db) as [|row rows] eqn:Ej;
        [|destruct (pair_of_join_row row) as [[]|]; discriminate].
      destruct (get_by_file_hash fh db) as [[|[f v] l]|e] eqn:Eb; [| |discriminate].
      * injection H as <-. split; [reflexivity|].
        unfold get_by_file_hash in Eb.
        destruct (join_rows (fun fr => String.eqb (fr_file_hash fr) fh) db) as [|row rows] eqn:Eh;
          [reflexivity|].
        simpl in Eb. unfold bind in Eb.
        destruct (pair_of_join_row row); [|discriminate].
        destruct (collect _ rows); discriminate.
      * injection H as <-.
        unfold get_by_file_hash in Eb.
        destruct (collect_in _ _ _ (f, v) Eb (or_introl eq_refl)) as [[fr vr] [Hin Hp]].
        destruct (join_rows_in _ _ _ _ Hin) as [Hfr [Hs [Hvr _]]].
        apply String.eqb_eq in Hs.
        destruct (pair_of_join_row_fields _ _ _ Hp) as [Hf _].
        destruct (file_of_file_row_fields _ _ Hf) as [Ht [Hpa [Hfh _]]]. simpl in Ht, Hpa, Hfh.
        split; [reflexivity|]. split; [congruence|]. split.
        -- destruct (String.eqb (fr_target fr) t) eqn:Et; [|left; apply String.eqb_neq in Et; congruence].
           destruct (String.eqb (fr_path fr) p) eqn:Ep; [|right; apply String.eqb_neq in Ep; congruence].
           exfalso.
           assert (Hk : In (fr, vr) (join_rows (same_key t p) db)).
           { destruct (join_rows_in _ _ _ _ Hin) as [_ [_ [_ Hc]]].
             unfold join_rows. apply in_flat_map. exists fr. split.
             - apply filter_In. split; [exact Hfr|]. unfold same_key. rewrite Et, Ep. reflexivity.
             - apply in_map. apply filter_In. split; [exact Hvr|]. apply String.eqb_eq; exact Hc. }
           rewrite Ej in Hk. destruct Hk.
        -- exists fr, vr. auto.
  - intros e H.
    destruct (get_by_target_path t p db) as [[[f v]|]|e'] eqn:Eg.
    + destruct (String.eqb _ _); discriminate.
    + destruct (get_by_file_hash fh db) as [[|[f v] l]|e'] eqn:Eb; try discriminate.
      injection H as ->. right; reflexivity.
    + injection H as ->. left; reflexivity.
Qed.

Lemma exists_four_outcomes_witness :
  exists_ "local" "Fandom/work.html.bz2" "fh" sample_db
    = Ok (ExactMatch (sample_file "h1") sample_version) /\
  (get_by_target_path "local" "Fandom/work.html.bz2" sample_db
     = Ok (Some (sample_file "h1", sample_version)) /\
   target (meta (sample_file "h1")) = "local"%string /\
   path (meta (sample_file "h1")) = "Fandom/work.html.bz2"%string /\
   file_hash (sample_file "h1") = "fh"%string).
Proof.
  assert (H : exists_ "local" "Fandom/work.html.bz2" "fh" sample_db
                = Ok (ExactMatch (sample_file "h1") sample_version))
    by (vm_compute; reflexivity).
  split; [exact H|].
  exact (proj1 (exists_four_outcomes "local" "Fandom/work.html.bz2" "fh" sample_db) _ H).
Defined.

Lemma from_row_null (r : SqlRow) :
  file_cols_null r = true ->
  left_join_row_from_row r = inl {| lj_file := None; lj_version := row_version r |}.
Proof.
  destruct r as [vr [] [] [] [] [] []]; unfold file_cols_null; simpl;
    intros H; try discriminate; reflexivity.
Qed.

Lemma from_row_mixed (r : SqlRow) :
  file_cols_null r = false -> file_cols_present r = false ->
  left_join_row_from_row r = inr (ColumnDecode "file columns").
Proof.
  destruct r as [vr [] [] [] [] [] []]; unfold file_cols_null, file_cols_present; simpl;
    intros H1 H2; try discriminate; reflexivity.
Qed.

Lemma from_row_present (r : SqlRow) :
  file_cols_present r = true -> exists fr,
  left_join_row_from_row r = inl {| lj_file := Some fr; lj_version := row_version r |} /\
  fr_content_hash fr = vr_content_hash (row_version r).
Proof.
  destruct r as [vr [] [] [] [] [] []]; unfold file_cols_present; simpl;
    intros H; try discriminate; eexists; split; reflexivity.
Qed.

Lemma fetch_all_mixed (rows : list SqlRow) :
  (exists r, In r rows /\ file_cols_null r = false /\ file_cols_present r = false) ->
  fetch_all_left_join rows = Err (Database (Some (ColumnDecode "file columns"))).
Proof.
  induction rows as [|r rows IH]; intros [r' [Hin [H1 H2]]]; [destruct Hin|].
  simpl. destruct Hin as [<-|Hin].
  - rewrite (from_row_mixed r H1 H2). reflexivity.
  - destruct (left_join_row_from_row r) as [j|e] eqn:E.
    + unfold bind. rewrite IH by (exists r'; auto). reflexivity.
    + destruct e as [idx]. unfold left_join_row_from_row in E.
      destruct (row_target r), (row_path r), (row_compression r), (row_file_size r),
        (row_file_hash r), (row_discovered_at r); try discriminate;
        injection E as <-; reflexivity.
Qed.

(** C8 (spec-modelled grouping): the file columns of a left-join row decode
    to an absent file when all are NULL, to a file when none is, and fail
    with a column decode error when some are and some are not; such a row
    makes [get_by_content_hash] fail with that decode error; and a version
    with no referencing file rows is returned with an empty file list. *)
Theorem get_by_content_hash_left_join :
  (forall r, file_cols_null r = true ->
     left_join_row_from_row r = inl {| lj_file := None; lj_version := row_version r |}) /\
  (forall r, file_cols_present r = true ->
     exists fr, left_join_row_from_row r = inl {| lj_file := Some fr; lj_version := row_version r |}) /\
  (forall r, file_cols_null r = false -> file_cols_present r = false ->
     left_join_row_from_row r = inr (ColumnDecode "file columns")) /\
  (forall rows, (exists r, In r rows /\ file_cols_null r = false /\ file_cols_present r = false) ->
     get_by_content_hash_rows rows = Err (Database (Some (ColumnDecode "file columns")))) /\
  (forall db h vr v,
     filter (fun vr => String.eqb (vr_content_hash vr) h) (versions db) = [vr] ->
     (forall fr, In fr (files db) -> fr_content_hash fr <> h) ->
     version_of_version_row vr = Ok v ->
     get_by_content_hash h db = Ok (Some (v, []))).
Proof.
  split; [exact from_row_null|]. split.
  { intros r H. destruct (from_row_present r H) as [fr [E _]]. exists fr; exact E. }
  split; [exact from_row_mixed|]. split.
  { intros rows H. unfold get_by_content_hash_rows. rewrite (fetch_all_mixed rows H). reflexivity. }
  intros db h vr v Hv Hf Hdec.
  unfold get_by_content_hash, left_join_by_content_hash. rewrite Hv. simpl.
  assert (Hvh : vr_content_hash vr = h).
  { assert (Hin : In vr (filter (fun vr => String.eqb (vr_content_hash vr) h) (versions db)))
      by (rewrite Hv; left; reflexivity).
    apply filter_In in Hin as [_ Hin]. apply String.eqb_eq; exact Hin. }
  assert (Hnone : filter (fun fr => String.eqb (fr_content_hash fr) (vr_content_hash vr)) (files db) = []).
  { rewrite Hvh. remember (files db) as l eqn:El. clear El Hv.
    induction l as [|fr l IH]; [reflexivity|]. simpl.
    destruct (String.eqb (fr_content_hash fr) h) eqn:E.
    - apply String.eqb_eq in E. exfalso. exact (Hf fr (or_introl eq_refl) E).
    - apply IH. intros fr' Hin. apply Hf. right; exact Hin. }
  rewrite Hnone. simpl.
  unfold get_by_content_hash_rows. simpl. unfold pair_of_left_join_row, bind. simpl.
  rewrite Hdec. simpl. reflexivity.
Qed.

Lemma get_by_content_hash_left_join_witness :
  get_by_content_hash "h1" orphan_db = Ok (Some (sample_version, [])) /\
  get_by_content_hash_rows [mixed_row] = Err (Database (Some (ColumnDecode "file columns"))) /\
  left_join_row_from_row mixed_row = inr (ColumnDecode "file columns").
Proof.
  destruct get_by_content_hash_left_join as [_ [_ [Hmix [Hrows Hempty]]]].
  split; [|split].
  - apply (Hempty orphan_db "h1"%string sample_version_row sample_version).
    + reflexivity.
    + intros fr [].
    + vm_compute. reflexivity.
  - apply Hrows. exists mixed_row. split; [left; reflexivity|split; reflexivity].
  - apply Hmix; reflexivity.
Defined.

Lemma try_range_ok lo hi v what x : try_range lo hi v what = Ok x -> x = v /\ lo <= v <= hi.
Proof.
  unfold try_range. destruct ((lo <=? v) && (v <=? hi)) eqn:E; intros H; [|discriminate].
  injection H as <-. apply andb_true_iff in E as [E1 E2].
  apply Z.leb_le in E1, E2. auto.
Qed.

Lemma try_range_in lo hi v what : lo <= v <= hi -> try_range lo hi v what = Ok v.
Proof.
  intros H. unfold try_range.
  replace ((lo <=? v) && (v <=? hi)) with true by (symmetry; apply andb_true_iff; split; apply Z.leb_le; lia).
  reflexivity.
Qed.

Lemma try_opt_u32_idem o w w' ct : try_opt_u32 o w = Ok ct -> try_opt_u32 ct w' = Ok ct.
Proof.
  destruct o as [c|]; simpl; unfold bind; intros H.
  - destruct (try_range 0 U32_MAX c w) as [c'|] eqn:E; [|discriminate].
    injection H as <-. apply try_range_ok in E as [-> R]. simpl.
    rewrite try_range_in by exact R. reflexivity.
  - injection H as <-. reflexivity.
Qed.

(** A version decoded from a row re-encodes to a row that decodes. *)
Lemma decoded_version_ok (vr : VersionRow) (v : Version) :
  version_of_version_row vr = Ok v -> version_ok v.
Proof.
  unfold version_of_version_row, bind.
  destruct (try_range 0 U32_MAX (vr_content_crc32 vr) _) as [crc|] eqn:E1; [|discriminate].
  destruct (try_range 0 (2^64-1) (vr_content_size vr) _) as [len|] eqn:E2; [|discriminate].
  destruct (try_range 0 (2^64-1) (vr_work_id vr) _) as [wid|] eqn:E3; [|discriminate].
  destruct (try_range 0 U32_MAX (vr_chapters_written vr) _) as [cw|] eqn:E4; [|discriminate].
  destruct (try_opt_u32 (vr_chapters_total vr) _) as [ct|] eqn:E5; [|discriminate].
  destruct (try_range 0 (2^64-1) (vr_words vr) _) as [w|] eqn:E6; [|discriminate].
  destruct (try_range TS_MIN TS_MAX (vr_published_on vr) _) as [pb|] eqn:E7; [|discriminate].
  destruct (try_range TS_MIN TS_MAX (vr_last_modified vr) _) as [lm|] eqn:E8; [|discriminate].
  destruct (try_range TS_MIN TS_MAX (vr_extracted_at vr) _) as [ex|] eqn:E9; [|discriminate].
  intros H; injection H as <-.
  apply try_range_ok in E1 as [-> R1]. apply try_range_ok in E2 as [-> R2].
  apply try_range_ok in E3 as [-> R3]. apply try_range_ok in E4 as [-> R4].
  apply try_range_ok in E6 as [-> R6]. apply try_range_ok in E7 as [-> R7].
  apply try_range_ok in E8 as [-> R8]. apply try_range_ok in E9 as [-> R9].
  intros vr' Hvr. unfold version_row_of_version, bind in Hvr. simpl in Hvr.
  destruct (try_range _ I64_MAX (vr_work_id vr) _) as [a|] eqn:F1; [|discriminate].
  destruct (try_range _ I64_MAX (vr_content_size vr) _) as [b|] eqn:F2; [|discriminate].
  destruct (try_range _ I64_MAX (vr_words vr) _) as [c|] eqn:F3; [|discriminate].
  apply try_range_ok in F1 as [-> _]. apply try_range_ok in F2 as [-> _].
  apply try_range_ok in F3 as [-> _].
  injection Hvr as <-. unfold version_of_version_row, bind; simpl.
  unfold U32_MAX, TS_MIN, TS_MAX, SECS_PER_DAY in *.
  rewrite !try_range_in by (first [ lia
    | pose proof (Z.mul_div_le (vr_published_on vr) 86400) as D1;
      pose proof (Z.mul_div_le (vr_last_modified vr) 86400) as D2;
      pose proof (Z.div_mod (vr_published_on vr) 86400) as M1;
      pose proof (Z.div_mod (vr_last_modified vr) 86400) as M2;
      pose proof (Z.mod_pos_bound (vr_published_on vr) 86400) as B1;
      pose proof (Z.mod_pos_bound (vr_last_modified vr) 86400) as B2;
      lia ]).
  rewrite (try_opt_u32_idem _ _ _ _ E5). simpl. eexists; reflexivity.
Qed.

Lemma compression_roundtrip (c : Compression) : Compress.from_str (Compress.to_string c) = Some c.
Proof. destruct c; reflexivity. Qed.

Lemma file_row_roundtrip (f : File) :
  meta_wf (meta f) -> exists fr, file_row_of_file f = Ok fr /\
  exists f', file_of_file_row fr = Ok f' /\ size (meta f') = size (meta f).
Proof.
  intros [Hs Ht]. unfold file_row_of_file, bind.
  rewrite try_range_in by (unfold I64_MAX in *; lia).
  eexists; split; [reflexivity|].
  unfold file_of_file_row, bind; simpl.
  rewrite compression_roundtrip.
  rewrite try_range_in by (unfold I64_MAX in *; lia).
  rewrite try_range_in by exact Ht.
  eexists; split; reflexivity.
Qed.

Lemma join_rows_upserted (fr : FileRow) (db : Db) :
  join_rows (same_key (fr_target fr) (fr_path fr)) (upsert_file_sql fr db)
  = map (fun vr => (fr, vr))
      (filter (fun vr => String.eqb (vr_content_hash vr) (fr_content_hash fr)) (versions db)).
Proof.
  unfold join_rows, upsert_file_sql. simpl.
  rewrite filter_app.
  replace (filter (same_key (fr_target fr) (fr_path fr))
             (filter (fun r => negb (same_key (fr_target fr) (fr_path fr) r)) (files db)))
    with (@nil FileRow).
  - simpl. unfold same_key. rewrite !String.eqb_refl. simpl. apply app_nil_r.
  - induction (files db) as [|r l IH]; [reflexivity|]. simpl.
    destruct (same_key (fr_target fr) (fr_path fr) r) eqn:E; simpl; [exact IH|].
    rewrite E. exact IH.
Qed.

(** After a committed upsert, the lookup by the file's (target, path) finds
    the row, with the file's size, provided the rows decode. *)
Lemma upsert_then_lookup (repo : Repository) (f : File) (v : Version) (db db' : Db) :
  dry_run repo = false -> meta_wf (meta f) -> versions_decode db -> version_ok v ->
  upsert repo f v db = (Ok tt, db') ->
  versions_decode db' /\
  exists cf v', get_by_target_path (target (meta f)) (path (meta f)) db' = Ok (Some (cf, v')) /\
    size (meta cf) = size (meta f).
Proof.
  intros Hd Hwf Hdec Hv Hu.
  destruct (upsert_cases repo f v db) as
    [[_ H]|[[_ [H _]]|[[e [_ [_ H]]]|[vr [fr [Hh [_ [Hvr [Hf H]]]]]]]]];
    [rewrite H in Hu; discriminate|congruence|rewrite H in Hu; discriminate|].
  rewrite H in Hu. injection Hu as <-.
  assert (Hdec' : versions_decode (upsert_version_sql vr db)).
  { intros vr' Hin. unfold upsert_version_sql in Hin.
    destruct (existsb _ _) in Hin; [exact (Hdec vr' Hin)|].
    simpl in Hin. apply in_app_or in Hin as [Hin|[<-|[]]]; [exact (Hdec vr' Hin)|].
    exact (Hv vr Hvr). }
  split; [exact Hdec'|].
  destruct (file_row_fields f fr Hf) as [Hc [Ht Hp]].
  destruct (file_row_roundtrip f Hwf) as [fr' [Hf' [f' [Hdf Hsz]]]].
  rewrite Hf in Hf'. injection Hf' as <-.
  unfold get_by_target_path. rewrite <- Ht, <- Hp, join_rows_upserted.
  destruct (upsert_version_sql_has vr db) as [vr0 [Hin0 Heq0]].
  destruct (filter (fun vr' => String.eqb (vr_content_hash vr') (fr_content_hash fr))
              (versions (upsert_version_sql vr db))) as [|vr1 rest] eqn:Ef.
  - exfalso. assert (Hin : In vr0 (filter (fun vr' => String.eqb (vr_content_hash vr') (fr_content_hash fr))
                                   (versions (upsert_version_sql vr db)))).
    { apply filter_In. split; [exact Hin0|]. apply String.eqb_eq.
      rewrite Heq0, (version_row_hash v vr Hvr), Hc. symmetry; exact Hh. }
    rewrite Ef in Hin. destruct Hin.
  - assert (Hin1 : In vr1 (versions (upsert_version_sql vr db))).
    { assert (Hin : In vr1 (filter (fun vr' => String.eqb (vr_content_hash vr') (fr_content_hash fr))
                                   (versions (upsert_version_sql vr db)))) by (rewrite Ef; left; reflexivity).
      apply filter_In in Hin as [Hin _]. exact Hin. }
    destruct (Hdec' vr1 Hin1) as [v1 Hv1].
    simpl. unfold pair_of_join_row, bind. simpl. rewrite Hdf, Hv1. simpl.
    exists f', v1. split; [reflexivity|exact Hsz].
Qed.

End CacheFacts.

Module ScanFacts.
Import Extract Compress Cache Library Samples CacheFacts.

Section Scanning.
Variable bn : string.
Variable blake3 : string -> string.
Variable decompress : Compression -> string -> option string.
Variable extract : string -> option Version.
Variable cache : Repository.

Lemma delete_versions (repo : Repository) (t p : string) (d : Db) :
  versions (snd (delete_by_target_path repo t p d)) = versions d.
Proof. unfold delete_by_target_path. destruct (dry_run repo); reflexivity. Qed.

Lemma scan_extract_done (file : FileMeta) (fh bytes : string) (eff : ScanEffort)
    (w w1 : World) (s : Scan) :
  scan_extract decompress extract cache file fh bytes eff w = (Done s, w1) ->
  exists content v, extract content = Some v /\
    upsert cache (with_hashes file fh (hash v)) v (db w) = (Ok tt, db w1).
Proof.
  unfold scan_extract.
  destruct (decompress (compression file) bytes) as [content|]; [|discriminate].
  destruct (extract content) as [v|] eqn:Ev; [|discriminate].
  unfold mbind, cache_write.
  destruct (upsert cache (with_hashes file fh (hash v)) v (db w)) as [[[]|e] d] eqn:Eu;
    intros H; [|discriminate].
  injection H as _ <-. exists content, v. split; [exact Ev|exact Eu].
Qed.

(** How a scan that misses the path-and-size lookup can succeed: by an
    upsert of a file with the input's metadata, on a database whose version
    rows are those of the start, with a version extracted or decoded from a
    stored row. *)
Lemma probe_done (file : FileMeta) (w w1 : World) (s : Scan) :
  scan_read_and_probe bn blake3 decompress extract cache file w = (Done s, w1) ->
  exists f v db0, meta f = file /\ upsert cache f v db0 = (Ok tt, db w1) /\
    versions db0 = versions (db w) /\
    ((exists content, extract content = Some v) \/
     (exists vr, In vr (versions (db w)) /\ version_of_version_row vr = Ok v)).
Proof.
  unfold scan_read_and_probe, mbind at 1, or_raise, backend_read.
  destruct (find_entry (path file) w) as [e|]; [|discriminate].
  unfold mbind at 1, cache_query. simpl db.
  destruct (exists_ bn (path file) (blake3 (e_bytes e)) (db w)) as [r|] eqn:Ex; [|discriminate].
  destruct r as [|f v|f v|f v].
  - intros H. apply scan_extract_done in H as [content [v [Hv Hu]]].
    exists (with_hashes file (blake3 (e_bytes e)) (hash v)), v, (db w).
    split; [reflexivity|]. split; [exact Hu|]. split; [reflexivity|].
    left; exists content; exact Hv.
  - unfold mbind, cache_write. simpl db.
    destruct (delete_by_target_path cache bn (path file) (db w)) as [[b|e'] d] eqn:Ed;
      intros H; [|discriminate].
    apply scan_extract_done in H as [content [v' [Hv Hu]]].
    exists (with_hashes file (blake3 (e_bytes e)) (hash v')), v', d.
    split; [reflexivity|]. split; [exact Hu|]. split.
    + rewrite <- (delete_versions cache bn (path file) (db w)), Ed. reflexivity.
    + left; exists content; exact Hv.
  - unfold mbind, cache_write. simpl db.
    destruct (delete_by_target_path cache bn (path file) (db w)) as [[b|e'] d] eqn:Ed;
      intros H; [|discriminate].
    apply scan_extract_done in H as [content [v' [Hv Hu]]].
    exists (with_hashes file (blake3 (e_bytes e)) (hash v')), v', d.
    split; [reflexivity|]. split; [exact Hu|]. split.
    + rewrite <- (delete_versions cache bn (path file) (db w)), Ed. reflexivity.
    + left; exists content; exact Hv.
  - unfold mbind, cache_write. simpl db.
    destruct (upsert cache (with_hashes file (blake3 (e_bytes e)) (content_hash f)) v (db w))
      as [[[]|e'] d] eqn:Eu; intros H; [|discriminate].
    injection H as _ <-.
    exists (with_hashes file (blake3 (e_bytes e)) (content_hash f)), v, (db w).
    split; [reflexivity|]. split; [exact Eu|]. split; [reflexivity|].
    right. destruct (proj1 (exists_four_outcomes _ _ _ _) _ Ex) as [_ [_ [_ [fr [vr [_ [Hvr Hp]]]]]]].
    exists vr. split; [exact Hvr|]. exact (proj2 (pair_of_join_row_fields _ _ _ Hp)).
Qed.

Lemma scan_hit (file : FileMeta) (w : World) (cf : File) (v : Version) :
  get_by_target_path bn (path file) (db w) = Ok (Some (cf, v)) ->
  size file = size (meta cf) ->
  scan_file_inner bn blake3 decompress extract cache file w
    = (Done {| scan_file := cf; scan_version := v; effort := Cached |}, w).
Proof.
  intros Hg Hs. unfold scan_file_inner, mbind, cache_query. rewrite Hg.
  rewrite (proj2 (Z.eqb_eq _ _) Hs). reflexivity.
Qed.

Lemma scan_done_cases (file : FileMeta) (w w1 : World) (s : Scan) :
  scan_file_inner bn blake3 decompress extract cache file w = (Done s, w1) ->
  (w1 = w /\ exists cf v, get_by_target_path bn (path file) (db w) = Ok (Some (cf, v)) /\
                          size file = size (meta cf)) \/
  exists f v db0, meta f = file /\ upsert cache f v db0 = (Ok tt, db w1) /\
    versions db0 = versions (db w) /\
    ((exists content, extract content = Some v) \/
     (exists vr, In vr (versions (db w)) /\ version_of_version_row vr = Ok v)).
Proof.
  unfold scan_file_inner, mbind at 1, cache_query.
  destruct (get_by_target_path bn (path file) (db w)) as [[[cf v]|]|e] eqn:Eg;
    [| |discriminate].
  - destruct (size file =? size (meta cf)) eqn:Es.
    + intros H. injection H as _ <-. left. split; [reflexivity|].
      exists cf, v. split; [reflexivity|]. apply Z.eqb_eq; exact Es.
    + intros H. right. exact (probe_done file w w1 s H).
  - intros H. right. exact (probe_done file w w1 s H).
Qed.

(** C4: a file whose (backend name, path) has a cache entry of the same size
    is answered from the cache with [Cached], the world (backend files, cache
    and the log of backend operations) unchanged. With a repository that is
    not a dry run, a file of the backend (well-formed metadata, decodable
    version rows, an extractor producing storable versions) that scanned
    successfully scans again as [Cached], the world unchanged. *)
Theorem scan_cached_second_pass :
  (forall file w cf v,
     get_by_target_path bn (path file) (db w) = Ok (Some (cf, v)) ->
     size file = size (meta cf) ->
     scan_file_inner bn blake3 decompress extract cache file w
       = (Done {| scan_file := cf; scan_version := v; effort := Cached |}, w)) /\
  (forall file w s1 w1,
     dry_run cache = false -> target file = bn -> meta_wf file ->
     versions_decode (db w) -> (forall c v, extract c = Some v -> version_ok v) ->
     scan_file_inner bn blake3 decompress extract cache file w = (Done s1, w1) ->
     exists cf v, scan_file_inner bn blake3 decompress extract cache file w1
                    = (Done {| scan_file := cf; scan_version := v; effort := Cached |}, w1)).
Proof.
  split; [exact scan_hit|].
  intros file w s1 w1 Hd Ht Hwf Hdec Hext H.
  destruct (scan_done_cases file w w1 s1 H) as
    [[-> [cf [v [Hg Hs]]]]|[f [v [db0 [Hm [Hu [Hvs Hv]]]]]]].
  - exists cf, v. exact (scan_hit file w cf v Hg Hs).
  - assert (Hdec0 : versions_decode db0) by (intros vr Hin; rewrite Hvs in Hin; exact (Hdec vr Hin)).
    assert (Hok : version_ok v).
    { destruct Hv as [[c Hc]|[vr [_ Hvr]]]; [exact (Hext c v Hc)|exact (decoded_version_ok vr v Hvr)]. }
    subst file.
    destruct (upsert_then_lookup cache f v db0 (db w1) Hd Hwf Hdec0 Hok Hu)
      as [_ [cf [v' [Hg Hs]]]].
    exists cf, v'. rewrite Ht in Hg. apply scan_hit; [exact Hg|symmetry; exact Hs].
Qed.

(** The frame of a scan: the backend files are untouched, the only backend
    operation is at most one read of the file, and the file scanned keeps its
    path. *)
Lemma lookup_key (t p : string) (d : Db) (f : File) (v : Version) :
  get_by_target_path t p d = Ok (Some (f, v)) -> target (meta f) = t /\ path (meta f) = p.
Proof.
  unfold get_by_target_path, bind.
  destruct (join_rows (same_key t p) d) as [|row rows] eqn:Ej; [discriminate|].
  destruct (pair_of_join_row row) as [[f' v']|e] eqn:Ep; [|discriminate].
  intros H; injection H as <- <-.
  assert (Hrow : In row (join_rows (same_key t p) d)) by (rewrite Ej; left; reflexivity).
  destruct row as [fr vr].
  destruct (join_rows_in _ _ _ _ Hrow) as [_ [Hk _]].
  destruct (pair_of_join_row_fields _ _ _ Ep) as [Hf _].
  destruct (file_of_file_row_fields _ _ Hf) as [Ht [Hp _]]. simpl in Ht, Hp.
  unfold same_key in Hk. apply andb_true_iff in Hk as [Hkt Hkp].
  apply String.eqb_eq in Hkt, Hkp. split; congruence.
Qed.

Lemma scan_extract_frame (file : FileMeta) (fh bytes : string) (eff : ScanEffort)
    (w w1 : World) (s : Scan) :
  scan_extract decompress extract cache file fh bytes eff w = (Done s, w1) ->
  meta (scan_file s) = file /\ entries w1 = entries w /\ ops w1 = ops w.
Proof.
  unfold scan_extract.
  destruct (decompress (compression file) bytes) as [content|]; [|discriminate].
  destruct (extract content) as [v|]; [|discriminate].
  unfold mbind, cache_write.
  destruct (upsert cache _ v (db w)) as [[[]|e] d]; intros H; [|discriminate].
  injection H as <- <-. auto.
Qed.

Lemma probe_frame (file : FileMeta) (w w1 : World) (s : Scan) :
  scan_read_and_probe bn blake3 decompress extract cache file w = (Done s, w1) ->
  meta (scan_file s) = file /\ entries w1 = entries w /\ ops w1 = ops w ++ [OpRead (path file)].
Proof.
  unfold scan_read_and_probe, mbind at 1, or_raise, backend_read.
  destruct (find_entry (path file) w) as [e|]; [|discriminate].
  unfold mbind at 1, cache_query. simpl db.
  destruct (exists_ bn (path file) (blake3 (e_bytes e)) (db w)) as [r|]; [|discriminate].
  destruct r as [|f v|f v|f v].
  - intros H. apply scan_extract_frame in H. exact H.
  - unfold mbind, cache_write. simpl db.
    destruct (delete_by_target_path cache bn (path file) (db w)) as [[b|e'] d];
      intros H; [|discriminate].
    apply scan_extract_frame in H. exact H.
  - unfold mbind, cache_write. simpl db.
    destruct (delete_by_target_path cache bn (path file) (db w)) as [[b|e'] d];
      intros H; [|discriminate].
    apply scan_extract_frame in H. exact H.
  - unfold mbind, cache_write. simpl db.
    destruct (upsert cache _ v (db w)) as [[[]|e'] d]; intros H; [|discriminate].
    injection H as <- <-. auto.
Qed.

End Scanning.

(** A dry-run repository writes nothing, so the second scan of the sample
    file misses the cache again: it reads the file and is [Processed]. *)
Lemma scan_dry_run_second_pass_processed :
  match scan_file_inner "local" id_blake3 plain_decompress sample_extract
          (mkRepository true) sample_meta scan_world with
  | (Done s1, w1) =>
      effort s1 = Processed /\
      match scan_file_inner "local" id_blake3 plain_decompress sample_extract
              (mkRepository true) sample_meta w1 with
      | (Done s2, w2) => effort s2 = Processed /\
                         ops w2 = ops w1 ++ [OpRead "Fandom/work.html.bz2"]
      | (Fail _, _) => False
      end
  | (Fail _, _) => False
  end.
Proof. vm_compute. split; [reflexivity|split; reflexivity]. Qed.

Lemma scan_cached_second_pass_witness :
  exists cf v,
    scan_file_inner "local" id_blake3 plain_decompress sample_extract (mkRepository false)
      sample_meta (snd (scan_file_inner "local" id_blake3 plain_decompress sample_extract
                          (mkRepository false) sample_meta scan_world))
    = (Done {| scan_file := cf; scan_version := v; effort := Cached |},
       snd (scan_file_inner "local" id_blake3 plain_decompress sample_extract
              (mkRepository false) sample_meta scan_world)).
Proof.
  destruct (scan_file_inner "local" id_blake3 plain_decompress sample_extract
              (mkRepository false) sample_meta scan_world) as [[s1|e] w1] eqn:E;
    [|vm_compute in E; discriminate].
  apply (proj2 (scan_cached_second_pass "local" id_blake3 plain_decompress sample_extract
                  (mkRepository false)) sample_meta scan_world s1 w1).
  - reflexivity.
  - reflexivity.
  - unfold meta_wf, I64_MAX, TS_MIN, TS_MAX. simpl. lia.
  - intros vr [].
  - intros c v Hc. injection Hc as <-. intros vr Hvr. vm_compute in Hvr.
    injection Hvr as <-. eexists. vm_compute. reflexivity.
  - exact E.
Defined.

End ScanFacts.

Module OrganizeFacts.
Import Extract Compress Cache Library Samples ScanFacts.

Section Organizing.
Variable bn : string.
Variable blake3 : string -> string.
Variable decompress : Compression -> string -> option string.
Variable extract : string -> option Version.
Variable generate : Version -> Compression -> option string.
Variable convert : Compression -> Compression -> string -> option string.
Variable cache : Repository.
Variable ctx : Context.

(** C9 (amended): a file present on its own backend, whose template
    location equals its current path, is answered [AlreadyCorrect] with its
    path. The location is computed from the cached version when the file is
    cached; then the only change is one [exists] probe on the path. When the
    file is not cached it is computed from the version a successful scan
    extracts; then the backend's files are unchanged and its operations are
    the [exists] probe and one read of the file. *)
Theorem organize_already_correct_io (n : nat) (file : FileMeta) (depth : list string)
    (w : World) :
  target file = bn -> find_entry (path file) w <> None ->
  (forall cf v, get_by_target_path bn (path file) (db w) = Ok (Some (cf, v)) ->
     generate v (match ctx_compression ctx with Some c => c | None => compression (meta cf) end)
       = Some (path file) ->
     organize_file_inner bn blake3 decompress extract generate convert cache ctx (S n) file depth w
     = (Done (AlreadyCorrect (path file)), log (OpExists (path file)) w)) /\
  (forall s w1, get_by_target_path bn (path file) (db w) = Ok None ->
     scan_file_inner bn blake3 decompress extract cache file (log (OpExists (path file)) w)
       = (Done s, w1) ->
     generate (scan_version s)
       (match ctx_compression ctx with Some c => c | None => compression file end)
       = Some (path file) ->
     organize_file_inner bn blake3 decompress extract generate convert cache ctx (S n) file depth w
     = (Done (AlreadyCorrect (path file)), w1) /\
     entries w1 = entries w /\ ops w1 = ops w ++ [OpExists (path file); OpRead (path file)]).
Proof.
  intros Ht Hf.
  destruct (find_entry (path file) w) as [e|] eqn:Ef; [clear Hf|contradiction].
  split.
  - intros cf v Hg Hgen.
    destruct (lookup_key _ _ _ _ _ Hg) as [_ Hp].
    simpl organize_file_inner. rewrite Ht, String.eqb_refl. cbn [negb].
    unfold mbind at 1, backend_exists. rewrite Ef. cbn [negb].
    unfold mbind at 1, cache_query. cbn [db log]. rewrite Hg.
    unfold mbind at 1, ret. rewrite Hp, Hgen, String.eqb_refl. reflexivity.
  - intros s w1 Hg Hs Hgen.
    assert (Hs' := Hs). unfold scan_file_inner, mbind at 1, cache_query in Hs'.
    cbn [db log] in Hs'. rewrite Hg in Hs'.
    destruct (probe_frame _ _ _ _ _ _ _ _ _ Hs') as [Hm [He Ho]].
    cbn [entries ops log] in He, Ho. rewrite <- app_assoc in Ho.
    split; [|split; [exact He|exact Ho]].
    simpl organize_file_inner. rewrite Ht, String.eqb_refl. cbn [negb].
    unfold mbind at 1, backend_exists. rewrite Ef. cbn [negb].
    unfold mbind at 1, cache_query. cbn [db log]. rewrite Hg.
    unfold mbind at 1, scan_for_organize. rewrite Hs. cbv beta iota.
    rewrite Hm, Hgen, String.eqb_refl. reflexivity.
Qed.

End Organizing.

(** The cached sample file, already where the template puts it: organizing
    it answers [AlreadyCorrect], but only after an [exists] probe on the
    backend. *)
Lemma organize_already_correct_probes :
  organize_file_inner "local" id_blake3 plain_decompress sample_extract sample_generate
    plain_convert (mkRepository false) plain_context 10 sample_meta [] organize_world
  = (Done (AlreadyCorrect "Fandom/work.html.bz2"),
     {| entries := entries organize_world; db := sample_db;
        ops := [OpExists "Fandom/work.html.bz2"] |}).
Proof. vm_compute. reflexivity. Qed.

Lemma organize_already_correct_io_witness :
  organize_file_inner "local" id_blake3 plain_decompress sample_extract sample_generate
    plain_convert (mkRepository false) plain_context 10 sample_meta [] organize_world
  = (Done (AlreadyCorrect (path sample_meta)), log (OpExists (path sample_meta)) organize_world) /\
  exists s w1,
    scan_file_inner "local" id_blake3 plain_decompress sample_extract (mkRepository false)
      sample_meta (log (OpExists (path sample_meta)) scan_world) = (Done s, w1) /\
    organize_file_inner "local" id_blake3 plain_decompress sample_extract sample_generate
      plain_convert (mkRepository false) plain_context 10 sample_meta [] scan_world
    = (Done (AlreadyCorrect (path sample_meta)), w1) /\
    entries w1 = entries scan_world /\
    ops w1 = ops scan_world ++ [OpExists (path sample_meta); OpRead (path sample_meta)].
Proof.
  split.
  - apply (proj1 (organize_already_correct_io "local" id_blake3 plain_decompress sample_extract
                    sample_generate plain_convert (mkRepository false) plain_context 9
                    sample_meta [] organize_world eq_refl ltac:(discriminate))
             (sample_file "h1") sample_version); vm_compute; reflexivity.
  - destruct (scan_file_inner "local" id_blake3 plain_decompress sample_extract
                (mkRepository false) sample_meta (log (OpExists (path sample_meta)) scan_world))
      as [[s|e] w1] eqn:Es; [|vm_compute in Es; discriminate].
    exists s, w1. split; [reflexivity|].
    apply (proj2 (organize_already_correct_io "local" id_blake3 plain_decompress sample_extract
                    sample_generate plain_convert (mkRepository false) plain_context 9
                    sample_meta [] scan_world eq_refl ltac:(discriminate)) s w1);
      [vm_compute; reflexivity|exact Es|reflexivity].
Defined.

(** C5: in a chain of seven cached files, each occupying the next one's
    correct location, organizing [w0.html] succeeds with seven nested
    relocations: the conflict check passes with a depth stack of length 5
    ([depth.len() > MAX_CONFLICT_DEPTH]). *)
Theorem conflict_chain_exceeds_bound :
  let r := organize_file_inner "local" id_blake3 plain_decompress sample_extract chain_generate
             plain_convert (mkRepository false) plain_context 20 (chain_meta 0) [] chain_world in
  fst r = Done (Renamed (chain_path 1)) /\
  filter is_rename (ops (snd r))
  = map (fun i => OpRename (chain_path i) (chain_path (S i))) (rev (seq 0 7)).
Proof. vm_compute. split; reflexivity. Qed.

End OrganizeFacts.

Module StreamFacts.
Import ScanStream.

Section Stream.
Variable scan_ok : string -> bool.

Lemma scanned_event_post (p : string) : is_post_event (scanned_event scan_ok p) = true.
Proof. unfold scanned_event. destruct (scan_ok p); reflexivity. Qed.

Lemma option_map_some {A B} (f : A -> B) (o : option A) (b : B) :
  option_map f o = Some b -> exists a, o = Some a /\ b = f a.
Proof. destruct o as [a|]; simpl; [intros H; injection H as <-; eauto|discriminate]. Qed.

(** Once discovery is complete, the loop only reports scans, then ends. *)
Lemma loop_after_discovery (fuel : nat) :
  forall sched st evs, discovery_complete st = true ->
  run_loop scan_ok fuel sched st = Some evs ->
  exists post, evs = post ++ [Complete] /\ forallb is_post_event post = true.
Proof.
  induction fuel as [|fuel IH]; intros sched st evs Hd H; [discriminate|].
  cbn [run_loop] in H. rewrite Hd in H. cbn [negb andb] in H.
  destruct (processing st) as [|p rest] eqn:Ep.
  - destruct (not_processing_yet st) as [|q l] eqn:En.
    + injection H as <-. exists []. auto.
    + exact (IH sched (else_refill st) evs Hd H).
  - unfold processing_arm in H. rewrite Ep in H.
    destruct (rev (not_processing_yet st)) as [|q rn]; cbv beta iota zeta in H;
      apply option_map_some in H as [evs' [Hr ->]];
      apply IH in Hr as [post [-> Hpost]]; try exact Hd;
      exists (scanned_event scan_ok p :: post);
      (split; [reflexivity|simpl; rewrite scanned_event_post; exact Hpost]).
Qed.

(** Before discovery is complete, the loop reports discoveries, listing
    errors and scans, then [DiscoveryComplete] with the number of files
    discovered in all, then the phase above. *)
Lemma loop_before_discovery (fuel : nat) :
  forall sched st evs, discovery_complete st = false ->
  run_loop scan_ok fuel sched st = Some evs ->
  exists pre post,
    evs = pre ++ DiscoveryComplete (discovered st + count_listed (listing st)) :: post ++ [Complete] /\
    forallb is_pre_event pre = true /\ forallb is_post_event post = true /\
    count_discovered pre = count_listed (listing st).
Proof.
  induction fuel as [|fuel IH]; intros sched st evs Hd H; [discriminate|].
  cbn [run_loop] in H. rewrite Hd in H. cbn [negb andb] in H.
  set (sched' := match sched with _ :: s => s | [] => [] end) in H.
  assert (Disc : forall evs0 st0, discovery_arm st = (evs0, st0) ->
            option_map (fun rest => evs0 ++ rest) (run_loop scan_ok fuel sched' st0) = Some evs ->
            exists pre post,
              evs = pre ++ DiscoveryComplete (discovered st + count_listed (listing st))
                         :: post ++ [Complete] /\
              forallb is_pre_event pre = true /\ forallb is_post_event post = true /\
              count_discovered pre = count_listed (listing st)).
  { intros evs0 st0 Ha H0. apply option_map_some in H0 as [evs' [Hr ->]].
    unfold discovery_arm in Ha.
    destruct (listing st) as [|[q|] rest] eqn:El.
    - injection Ha as <- <-.
      apply loop_after_discovery in Hr as [post [-> Hpost]]; [|reflexivity].
      exists [], post. simpl. rewrite Nat.add_0_r. auto.
    - destruct (Nat.ltb _ _); injection Ha as <- <-;
        (apply IH in Hr as [pre [post [-> [Hpre [Hpost Hc]]]]]; [|exact Hd]);
        exists (FileDiscovered q :: pre), post; simpl in *;
        (split; [unfold count_listed; simpl; rewrite Nat.add_succ_r; reflexivity|]);
        (split; [exact Hpre|split; [exact Hpost|]]);
        unfold count_discovered, count_listed in *; simpl; rewrite Hc; reflexivity.
    - injection Ha as <- <-.
      apply IH in Hr as [pre [post [-> [Hpre [Hpost Hc]]]]]; [|exact Hd].
      exists (ListingFailed :: pre), post. simpl in *. auto. }
  assert (Proc : forall p rest,
            processing st = p :: rest ->
            (let '(evs0, st0) := processing_arm scan_ok st in
             option_map (fun rest => evs0 ++ rest) (run_loop scan_ok fuel sched' st0)) = Some evs ->
            exists pre post,
              evs = pre ++ DiscoveryComplete (discovered st + count_listed (listing st))
                         :: post ++ [Complete] /\
              forallb is_pre_event pre = true /\ forallb is_post_event post = true /\
              count_discovered pre = count_listed (listing st)).
  { intros p rest Ep H0. unfold processing_arm in H0. rewrite Ep in H0.
    destruct (rev (not_processing_yet st)) as [|q rn]; cbv beta iota zeta in H0;
      apply option_map_some in H0 as [evs' [Hr ->]];
      (apply IH in Hr as [pre [post [-> [Hpre [Hpost Hc]]]]]; [|exact Hd]);
      exists (scanned_event scan_ok p :: pre), post; simpl in *;
      (split; [reflexivity|]);
      (split; [unfold scanned_event in *; destruct (scan_ok p); exact Hpre|split; [exact Hpost|]]);
      unfold count_discovered, scanned_event in *; destruct (scan_ok p); exact Hc. }
  destruct (processing st) as [|p rest] eqn:Ep; cbn [negb orb] in H.
  - destruct (discovery_arm st) as [evs0 st0] eqn:Ea. exact (Disc evs0 st0 eq_refl H).
  - destruct (match sched with c :: _ => c | [] => PollList end); cbn [orb] in H.
    + destruct (discovery_arm st) as [evs0 st0] eqn:Ea. exact (Disc evs0 st0 eq_refl H).
    + exact (Proc p rest eq_refl H).
Qed.

(** C7 (amended): every event sequence of the streaming scan is [Started],
    then discoveries, listing errors and scan results in any interleaving,
    then one [DiscoveryComplete n] where [n] counts the [FileDiscovered]
    events before it (and the files listed), then scan results only, then
    [Complete]. *)
Theorem scan_event_order (fuel : nat) (sched : list Poll) (listed : list Listed)
    (evs : list ScanEvent) :
  scan_inner scan_ok fuel sched listed = Some evs ->
  exists pre n post,
    evs = Started :: pre ++ DiscoveryComplete n :: post ++ [Complete] /\
    forallb is_pre_event pre = true /\ forallb is_post_event post = true /\
    n = count_discovered pre /\ n = count_listed listed.
Proof.
  unfold scan_inner. intros H. apply option_map_some in H as [evs' [Hr ->]].
  apply loop_before_discovery in Hr as [pre [post [-> [Hpre [Hpost Hc]]]]]; [|reflexivity].
  simpl in Hc |- *. exists pre, (count_listed listed), post. auto.
Qed.

End Stream.

(** A [Scanned] event can precede [DiscoveryComplete]: with two listed files
    and the first scan finishing before the listing yields the second. *)
Lemma scanned_before_discovery_complete :
  scan_inner (fun _ => true) 10 [PollList; PollProc] [LOk "a"; LOk "b"]
  = Some [Started; FileDiscovered "a"; Scanned "a"; FileDiscovered "b";
          DiscoveryComplete 2; Scanned "b"; Complete].
Proof. vm_compute. reflexivity. Qed.

Lemma scan_event_order_witness :
  exists pre n post,
    [Started; FileDiscovered "a"; Scanned "a"; FileDiscovered "b";
     DiscoveryComplete 2; Scanned "b"; Complete]
    = Started :: pre ++ DiscoveryComplete n :: post ++ [Complete] /\
    forallb is_pre_event pre = true /\ forallb is_post_event post = true /\
    n = count_discovered pre /\ n = count_listed [LOk "a"; LOk "b"].
Proof.
  exact (scan_event_order (fun _ => true) 10 [PollList; PollProc] [LOk "a"; LOk "b"] _
           (ltac:(vm_compute; reflexivity))).
Defined.

End StreamFacts.

Module CompressFacts.
Import Compress.

(** [Display] and [FromStr] agree: parsing the name a format displays gives
    the format back. *)
Theorem display_from_str_roundtrip (c : Compression) : from_str (to_string c) = Some c.
Proof. destruct c; reflexivity. Qed.

(** [from_magic_bytes] and [check_magic_bytes] in a build without the
    optional brotli, xz and zstd features: the bzip2 and gzip prefixes are
    detected, input shorter than two bytes is [None], and [check_magic_bytes c]
    holds exactly when [from_magic_bytes] detects [c]. *)
Theorem magic_bytes_detection :
  (forall rest, from_magic_bytes (BZIP2_MAGIC ++ rest) = Bzip2) /\
  (forall rest, from_magic_bytes (GZIP_MAGIC ++ rest) = Gzip) /\
  (forall bytes, (List.length bytes < 2)%nat -> from_magic_bytes bytes = None_) /\
  (forall c bytes, check_magic_bytes c bytes = true <-> from_magic_bytes bytes = c).
Proof.
  split; [intros rest; reflexivity|].
  split; [intros rest; reflexivity|].
  split.
  - intros [|b [|b' r]] H; simpl in H; try lia; [reflexivity|].
    unfold from_magic_bytes; simpl.
    destruct (Byte.eqb b Byte.x42), (Byte.eqb b Byte.x1f); reflexivity.
  - intros c bytes. unfold check_magic_bytes.
    destruct c, (from_magic_bytes bytes); simpl; split; congruence.
Qed.

End CompressFacts.

Module PathExtFacts.
Import StoragePath Compress.

Lemma list_ascii_app (s1 s2 : string) :
  list_ascii_of_string (s1 ++ s2) = list_ascii_of_string s1 ++ list_ascii_of_string s2.
Proof. induction s1 as [|c s1 IH]; simpl; [reflexivity|rewrite IH; reflexivity]. Qed.

Lemma split_no_slash (m cur : list ascii) :
  ~ In "/"%char m -> split_slash m cur = [rev cur ++ m].
Proof.
  revert cur; induction m as [|c m IH]; intros cur H; simpl.
  - rewrite app_nil_r; reflexivity.
  - destruct (Ascii.eqb c "/") eqn:E.
    + apply Ascii.eqb_eq in E. subst. exfalso. apply H; left; reflexivity.
    + rewrite IH by (intros Hm; apply H; right; exact Hm). simpl.
      rewrite <- app_assoc. reflexivity.
Qed.

Lemma split_slash_nonempty (l cur : list ascii) : split_slash l cur <> [].
Proof.
  revert cur; induction l as [|c l IH]; intros cur; simpl; [discriminate|].
  destruct (Ascii.eqb c "/"); [discriminate|apply IH].
Qed.

Lemma split_app (l m cur : list ascii) :
  ~ In "/"%char m ->
  split_slash (l ++ m) cur
  = removelast (split_slash l cur) ++ [last (split_slash l cur) [] ++ m].
Proof.
  intros Hm. revert cur; induction l as [|c l IH]; intros cur; simpl.
  - apply split_no_slash; exact Hm.
  - destruct (Ascii.eqb c "/").
    + rewrite IH. pose proof (split_slash_nonempty l []) as Hne.
      destruct (split_slash l []) as [|y ys]; [contradiction|]. reflexivity.
    + apply IH.
Qed.

Lemma split_cons (c : ascii) (l cur : list ascii) :
  split_slash (c :: l) cur
  = if Ascii.eqb c "/" then rev cur :: split_slash l [] else split_slash l (c :: cur).
Proof. reflexivity. Qed.

Lemma last_seg_nonempty (l cur : list ascii) :
  l <> [] -> last l "/"%char <> "/"%char -> last (split_slash l cur) [] <> [].
Proof.
  revert cur; induction l as [|c l IH]; intros cur Hne Hl; [contradiction|].
  destruct l as [|c' l'].
  - simpl in Hl. simpl. destruct (Ascii.eqb c "/") eqn:E.
    + apply Ascii.eqb_eq in E. contradiction.
    + simpl. intros H. apply (f_equal (@List.length _)) in H.
      rewrite length_app in H. simpl in H. lia.
  - change (last (c :: c' :: l') "/"%char) with (last (c' :: l') "/"%char) in Hl.
    rewrite split_cons. destruct (Ascii.eqb c "/").
    + pose proof (split_slash_nonempty (c' :: l') []) as Hs.
      specialize (IH [] ltac:(discriminate) Hl).
      destruct (split_slash (c' :: l') []) as [|y ys]; [contradiction|].
      exact IH.
    + apply IH; [discriminate|exact Hl].
Qed.

Lemma body_long (a b c : ascii) (r : list ascii) :
  body_component (a :: b :: c :: r) = [Normal (string_of_list_ascii (a :: b :: c :: r))].
Proof.
  simpl. repeat (match goal with |- context [match ?x with _ => _ end] => destruct x end);
    reflexivity.
Qed.

Lemma body_component_long (seg : list ascii) :
  (3 <= List.length seg)%nat -> body_component seg = [Normal (string_of_list_ascii seg)].
Proof.
  destruct seg as [|a [|b [|c r]]]; simpl; intros H; try lia. apply body_long.
Qed.

Lemma rsplit_app (r1 r2 acc : list ascii) :
  ~ In "."%char r1 -> rsplit_at_dot (r1 ++ "."%char :: r2) acc = (rev r1 ++ acc, Some (rev r2)).
Proof.
  revert acc; induction r1 as [|c r1 IH]; intros acc H; simpl; [reflexivity|].
  destruct (Ascii.eqb c ".") eqn:E.
  - apply Ascii.eqb_eq in E. subst. exfalso. apply H; left; reflexivity.
  - rewrite IH by (intros Hm; apply H; right; exact Hm).
    rewrite <- app_assoc. reflexivity.
Qed.

(** [Path::extension] of [l.e], when [l] ends in a file name and [e] is a
    nonempty extension without ['/'] or ['.']. *)
Lemma path_extension_app (l e : list ascii) :
  l <> [] -> last l "/"%char <> "/"%char -> e <> [] ->
  ~ In "/"%char e -> ~ In "."%char e ->
  path_extension (string_of_list_ascii (l ++ "."%char :: e)) = Some (string_of_list_ascii e).
Proof.
  intros Hl Hlast He Hs Hd.
  assert (Hm : ~ In "/"%char ("."%char :: e)).
  { intros [H|H]; [discriminate|contradiction]. }
  pose proof (last_seg_nonempty l [] Hl Hlast) as Hx.
  unfold path_extension, file_name, components.
  rewrite list_ascii_of_string_of_list_ascii, (split_app l _ [] Hm).
  set (x := last (split_slash l []) []) in *.
  rewrite flat_map_app. simpl flat_map at 2.
  rewrite body_component_long.
  2:{ rewrite length_app. simpl. destruct x; [contradiction|]. destruct e; [contradiction|].
      simpl. lia. }
  rewrite app_nil_r, app_assoc, rev_unit.
  destruct (String.eqb (string_of_list_ascii (x ++ "."%char :: e)) "..") eqn:E.
  - exfalso. apply String.eqb_eq in E.
    apply (f_equal list_ascii_of_string) in E.
    rewrite list_ascii_of_string_of_list_ascii in E.
    apply (f_equal (@List.length _)) in E. rewrite length_app in E. simpl in E.
    destruct x; [contradiction|]. destruct e; [contradiction|]. simpl in E. lia.
  - rewrite list_ascii_of_string_of_list_ascii, rev_app_distr. simpl.
    rewrite <- app_assoc. simpl.
    rewrite rsplit_app by (rewrite <- in_rev; exact Hd).
    rewrite !rev_involutive, app_nil_r.
    destruct x; [contradiction|]. reflexivity.
Qed.

Lemma from_path_suffix (s : string) (c : Compression) :
  c <> None_ -> list_ascii_of_string s <> [] ->
  last (list_ascii_of_string s) "/"%char <> "/"%char ->
  from_path (s ++ extension c) = c.
Proof.
  intros Hc Hne Hl.
  rewrite <- (string_of_list_ascii_of_string (s ++ extension c)), list_ascii_app.
  destruct c; [contradiction| |]; simpl extension; unfold from_path; simpl list_ascii_of_string at 2;
    rewrite path_extension_app; try assumption; try discriminate;
    try (simpl; intuition discriminate); reflexivity.
Qed.

(** [from_path] recognises the suffix [extension] gives: a path that ends in
    a file name, with [".bz2"] or [".gz"] appended, is detected as [Bzip2] or
    [Gzip]. *)
Theorem from_path_extension (s : string) (c : Compression) :
  c <> None_ -> list_ascii_of_string s <> [] ->
  last (list_ascii_of_string s) "/"%char <> "/"%char ->
  from_path (s ++ extension c) = c.
Proof. exact (from_path_suffix s c). Qed.

End PathExtFacts.

Module ValidateFacts.
Import StoragePath PathFacts PathExtFacts.

(** A component [validate] may return: nonempty, neither ["."] nor [".."],
    without ['/'] and without NUL. *)
Lemma body_component_spec (seg : list ascii) :
  (body_component seg = [] /\ (seg = [] \/ seg = ["."%char])) \/
  (body_component seg = [ParentDir] /\ seg = ["."%char; "."%char]) \/
  (body_component seg = [Normal (string_of_list_ascii seg)] /\
   seg <> [] /\ seg <> ["."%char] /\ seg <> ["."%char; "."%char]).
Proof.
  destruct seg as [|a [|b [|c r]]].
  - left; auto.
  - destruct (ascii_dec a ".") as [->|Ha]; [left; auto|].
    right; right. repeat split; try congruence.
    simpl. repeat (match goal with |- context [match ?x with _ => _ end] => destruct x end);
      first [reflexivity | exfalso; apply Ha; reflexivity].
  - destruct (ascii_dec a ".") as [->|Ha]; destruct (ascii_dec b ".") as [->|Hb];
      [right; left; auto| | |];
      right; right; (repeat split; try congruence);
      simpl; repeat (match goal with |- context [match ?x with _ => _ end] => destruct x end);
      first [reflexivity | exfalso; apply Ha; reflexivity | exfalso; apply Hb; reflexivity].
  - right; right. rewrite body_long. repeat split; discriminate.
Qed.

Lemma split_segs_no_slash (l cur seg : list ascii) :
  ~ In "/"%char cur -> In seg (split_slash l cur) -> ~ In "/"%char seg.
Proof.
  revert cur; induction l as [|c l IH]; intros cur Hc Hin; rewrite ?split_cons in Hin.
  - destruct Hin as [<-|[]]. rewrite <- in_rev. exact Hc.
  - destruct (Ascii.eqb c "/") eqn:E.
    + destruct Hin as [<-|Hin]; [rewrite <- in_rev; exact Hc|].
      exact (IH [] (@in_nil _ "/"%char) Hin).
    + apply (IH (c :: cur)); [|exact Hin].
      intros [H|H]; [|contradiction]. subst. rewrite Ascii.eqb_refl in E. discriminate.
Qed.

Lemma string_of_neq (seg : list ascii) (s : string) :
  seg <> list_ascii_of_string s -> string_of_list_ascii seg <> s.
Proof. intros H E. apply H. rewrite <- E, list_ascii_of_string_of_list_ascii. reflexivity. Qed.

Lemma components_normal (s x : string) :
  In (Normal x) (components s) ->
  exists seg, In seg (split_slash (list_ascii_of_string s) []) /\ x = string_of_list_ascii seg /\
  x <> ""%string /\ x <> "."%string /\ x <> ".."%string /\ ~ In "/"%char (list_ascii_of_string x).
Proof.
  destruct (components_body s) as [hd [Hhd ->]].
  intros Hin. apply in_app_or in Hin as [Hin|Hin].
  - destruct (Hhd _ Hin); discriminate.
  - apply in_flat_map in Hin as [seg [Hseg Hin]]. exists seg.
    pose proof (split_segs_no_slash _ _ _ (@in_nil _ "/"%char) Hseg) as Hns.
    destruct (body_component_spec seg) as [[E _]|[[E _]|[E [H1 [H2 H3]]]]];
      rewrite E in Hin; simpl in Hin; try contradiction; try (destruct Hin as [Hin|[]]; discriminate).
    destruct Hin as [Hin|[]]. injection Hin as <-. split; [exact Hseg|]. repeat split.
    + apply string_of_neq. exact H1.
    + apply string_of_neq. exact H2.
    + apply string_of_neq. exact H3.
    + rewrite list_ascii_of_string_of_list_ascii. exact Hns.
Qed.

Lemma validate_loop_out (o cs : list Component) (acc out : list string) :
  validate_loop o cs acc = Ok out ->
  forall x, In x out -> In x acc \/ (In (Normal x) cs /\ contains_nul x = false).
Proof.
  revert acc; induction cs as [|c cs IH]; intros acc H x Hx; simpl in H.
  - injection H as <-. left; exact Hx.
  - destruct c; try discriminate.
    + destruct (IH acc H x Hx) as [?|[? ?]]; [left; assumption|right; split; [right|]; assumption].
    + destruct (IH acc H x Hx) as [?|[? ?]]; [left; assumption|right; split; [right|]; assumption].
    + destruct acc as [|a acc]; [discriminate|].
      destruct (IH acc H x Hx) as [?|[? ?]]; [left; right; assumption|right; split; [right|]; assumption].
    + destruct (contains_nul s) eqn:Ens; [discriminate|].
      destruct (IH (s :: acc) H x Hx) as [[<-|?]|[? ?]].
      * right; split; [left; reflexivity|exact Ens].
      * left; assumption.
      * right; split; [right|]; assumption.
Qed.

Lemma validate_path_out (s : string) (cs : list string) :
  validate_path s = Ok cs ->
  cs <> [] /\ forall x, In x cs ->
  exists seg, In seg (split_slash (list_ascii_of_string s) []) /\ x = string_of_list_ascii seg /\
  seg_ok x.
Proof.
  unfold validate_path, validate.
  destruct (validate_loop (components s) (components s) []) as [[|y ys]|e] eqn:E;
    intros H; try discriminate.
  injection H as <-. split.
  - simpl. intros H. destruct (rev ys); discriminate.
  - intros x Hx. change (rev ys ++ [y]) with (rev (y :: ys)) in Hx. rewrite <- in_rev in Hx.
    destruct (validate_loop_out _ _ _ _ E x Hx) as [[]|[Hn Hnul]].
    destruct (components_normal s x Hn) as [seg [Hseg [-> [H1 [H2 [H3 H4]]]]]].
    exists seg. repeat split; assumption.
Qed.

Lemma validate_path_segs (s : string) (cs : list string) :
  validate_path s = Ok cs -> cs <> [] /\ Forall seg_ok cs.
Proof.
  intros H. destruct (validate_path_out s cs H) as [Hne Hall].
  split; [exact Hne|]. apply Forall_forall. intros x Hx.
  destruct (Hall x Hx) as [seg [_ [_ Hok]]]. exact Hok.
Qed.

(** [validate] returns at least one component, and each is a plain name:
    nonempty, not ["."] or [".."], without ['/'] and without NUL. *)
Theorem validate_path_segments (s : string) (cs : list string) :
  validate_path s = Ok cs -> cs <> [] /\ Forall seg_ok cs.
Proof. exact (validate_path_segs s cs). Qed.

Lemma split_app_slash (x rest cur : list ascii) :
  ~ In "/"%char x -> split_slash (x ++ "/"%char :: rest) cur = (rev cur ++ x) :: split_slash rest [].
Proof.
  revert cur; induction x as [|c x IH]; intros cur H; simpl.
  - rewrite app_nil_r; reflexivity.
  - destruct (Ascii.eqb c "/") eqn:E.
    + apply Ascii.eqb_eq in E. subst. exfalso. apply H; left; reflexivity.
    + rewrite IH by (intros Hm; apply H; right; exact Hm). simpl.
      rewrite <- app_assoc. reflexivity.
Qed.

Lemma split_join (x : list ascii) (xs : list (list ascii)) (cur : list ascii) :
  ~ In "/"%char x -> Forall (fun y => ~ In "/"%char y) xs ->
  split_slash (join_slash (x :: xs)) cur = (rev cur ++ x) :: xs.
Proof.
  revert x cur; induction xs as [|y ys IH]; intros x cur Hx Hxs.
  - simpl. apply split_no_slash. exact Hx.
  - change (join_slash (x :: y :: ys)) with (x ++ "/"%char :: join_slash (y :: ys)).
    inversion Hxs as [|? ? Hy Hys]; subst.
    rewrite split_app_slash by exact Hx. rewrite IH by assumption. reflexivity.
Qed.

Lemma validate_loop_normals (o : list Component) (cs acc : list string) :
  Forall (fun c => contains_nul c = false) cs ->
  validate_loop o (map Normal cs) acc = Ok (rev cs ++ acc).
Proof.
  revert acc; induction cs as [|c cs IH]; intros acc H; [reflexivity|].
  inversion H as [|? ? Hc Hcs]; subst. simpl. rewrite Hc, IH by exact Hcs.
  rewrite <- app_assoc. reflexivity.
Qed.

Lemma body_seg_ok (c : string) :
  seg_ok c -> body_component (list_ascii_of_string c) = [Normal c].
Proof.
  intros [H1 [H2 [H3 _]]].
  destruct (body_component_spec (list_ascii_of_string c)) as [[_ [E|E]]|[[_ E]|[E _]]].
  - exfalso. apply H1. rewrite <- (string_of_list_ascii_of_string c), E. reflexivity.
  - exfalso. apply H2. rewrite <- (string_of_list_ascii_of_string c), E. reflexivity.
  - exfalso. apply H3. rewrite <- (string_of_list_ascii_of_string c), E. reflexivity.
  - rewrite E, string_of_list_ascii_of_string. reflexivity.
Qed.

Lemma validate_path_string (cs : list string) :
  cs <> [] -> Forall seg_ok cs -> validate_path (path_string cs) = Ok cs.
Proof.
  intros Hne Hall. destruct cs as [|c0 cs']; [contradiction|].
  assert (Hsplit : split_slash (list_ascii_of_string (path_string (c0 :: cs'))) []
                   = map list_ascii_of_string (c0 :: cs')).
  { unfold path_string. rewrite list_ascii_of_string_of_list_ascii.
    inversion Hall as [|? ? H0 Hcs]; subst. simpl map.
    rewrite split_join; [reflexivity|apply H0|].
    apply Forall_map. eapply Forall_impl; [|exact Hcs]. intros a Ha; apply Ha. }
  unfold validate_path, validate.
  destruct (components_body (path_string (c0 :: cs'))) as [hd [Hhd Ec]].
  rewrite Ec, validate_loop_skip_head by exact Hhd. rewrite Hsplit.
  replace (flat_map body_component (map list_ascii_of_string (c0 :: cs')))
    with (map Normal (c0 :: cs')).
  - rewrite validate_loop_normals.
    + rewrite app_nil_r, rev_involutive.
      destruct (rev (c0 :: cs')) eqn:Er; [|reflexivity].
      apply (f_equal (@List.length _)) in Er. rewrite length_rev in Er. discriminate.
    + eapply Forall_impl; [|exact Hall]. intros a Ha; apply Ha.
  - clear Hsplit Ec Hne. induction Hall as [|c l Hc Hl IH]; [reflexivity|].
    simpl. rewrite body_seg_ok by exact Hc. simpl. f_equal. exact IH.
Qed.

(** [validate] is idempotent: joining its result and validating again gives
    the same components. *)
Theorem validate_path_idempotent (s : string) (cs : list string) :
  validate_path s = Ok cs -> validate_path (path_string cs) = Ok cs.
Proof.
  intros H. destruct (validate_path_segs s cs H) as [Hne Hall].
  apply validate_path_string; assumption.
Qed.

End ValidateFacts.

Module TemplateFacts.
Import Compress StoragePath PathTemplate PathExtFacts ValidateFacts.

Lemma ts_suffix (p : ascii -> bool) (l : list ascii) :
  exists pre, l = pre ++ trim_start_matches p l.
Proof.
  induction l as [|c l IH]; simpl; [exists []; reflexivity|].
  destruct (p c).
  - destruct IH as [pre E]. exists (c :: pre). simpl. f_equal. exact E.
  - exists []. reflexivity.
Qed.

Lemma ts_in (p : ascii -> bool) (l : list ascii) (x : ascii) :
  In x (trim_start_matches p l) -> In x l.
Proof.
  destruct (ts_suffix p l) as [pre E]. intros H. rewrite E. apply in_or_app. right; exact H.
Qed.

Lemma trim_in (p : ascii -> bool) (l : list ascii) (x : ascii) :
  In x (trim_matches p l) -> In x l.
Proof.
  unfold trim_matches. intros H. apply in_rev in H. apply ts_in in H.
  apply in_rev in H. apply ts_in in H. exact H.
Qed.

Lemma last_app_ne {A} (l m : list A) (d : A) : m <> [] -> last (l ++ m) d = last m d.
Proof.
  intros Hm. induction l as [|a l IH]; [reflexivity|].
  simpl. rewrite IH. destruct (l ++ m) eqn:E; [|reflexivity].
  apply app_eq_nil in E as [_ E]. contradiction.
Qed.

Lemma last_in {A} (l : list A) (d : A) : l <> [] -> In (last l d) l.
Proof.
  intros H. rewrite (app_removelast_last d H) at 2. apply in_or_app. right; left; reflexivity.
Qed.

Lemma string_app_assoc (a b c : string) : ((a ++ b) ++ c = a ++ (b ++ c))%string.
Proof. induction a as [|x a IH]; simpl; [reflexivity|rewrite IH; reflexivity]. Qed.

(** For a compressed target, the path [generate_with_ext] builds is
    detected by [Compression::from_path] as that compression, when the
    extension argument has no ['/']. *)
Theorem generate_with_ext_from_path (rendered : option string) (ext out : string) (c : Compression) :
  c <> None_ -> ~ In "/"%char (list_ascii_of_string ext) ->
  generate_with_ext rendered ext (Some c) = Ok out -> from_path out = c.
Proof.
  intros Hc Hext. unfold generate_with_ext.
  destruct (generate rendered) as [path|e]; intros H; [|discriminate].
  injection H as <-. cbv beta iota zeta.
  set (E := trim_matches (fun c0 => Ascii.eqb c0 "."%char) (trim (list_ascii_of_string ext))).
  replace (path ++ String "." (string_of_list_ascii E ++ extension c))%string
    with ((path ++ String "." (string_of_list_ascii E)) ++ extension c)%string
    by (rewrite string_app_assoc; reflexivity).
  assert (HE : forall x, In x E -> In x (list_ascii_of_string ext)).
  { intros x Hx. apply trim_in in Hx. apply trim_in in Hx. exact Hx. }
  clearbody E.
  apply from_path_suffix; [exact Hc| |];
    rewrite list_ascii_app;
    change (list_ascii_of_string (String "." (string_of_list_ascii E)))
      with ("."%char :: list_ascii_of_string (string_of_list_ascii E));
    rewrite list_ascii_of_string_of_list_ascii.
  - destruct (list_ascii_of_string path); discriminate.
  - rewrite last_app_ne by discriminate.
    destruct E as [|e0 es]; [discriminate|].
    change (last ("."%char :: e0 :: es) "/"%char) with (last (e0 :: es) "/"%char).
    intros Hl. apply Hext, HE. rewrite <- Hl. apply last_in. discriminate.
Qed.

End TemplateFacts.

Module OrderFacts.
Import Extract.

Lemma lex_step_lt (x y : Z) (k : comparison) :
  (if negb (x =? y) then Z.compare x y else k) = Lt <-> x < y \/ (x = y /\ k = Lt).
Proof.
  destruct (Z.eqb_spec x y) as [->|Hne]; simpl.
  - split; [intros H; right; auto|intros [H|[_ H]]; [lia|exact H]].
  - rewrite Z.compare_lt_iff. split; [auto|intros [H|[H _]]; [exact H|contradiction]].
Qed.

Lemma lex_step_eq (x y : Z) (k : comparison) :
  (if negb (x =? y) then Z.compare x y else k) = Eq <-> x = y /\ k = Eq.
Proof.
  destruct (Z.eqb_spec x y) as [->|Hne]; simpl.
  - tauto.
  - rewrite Z.compare_eq_iff. tauto.
Qed.

Lemma eq_lt_false : (Eq = Lt) <-> False.
Proof. split; [discriminate|contradiction]. Qed.

(** [Ord for Metadata] compares lexicographically by last modified date,
    words, chapters written and published date: two metadata compare [Equal]
    exactly when these four fields agree, and [Less] is transitive. *)
Theorem metadata_cmp_lexicographic (a b c : Metadata) :
  (metadata_cmp a b = Eq <->
     last_modified a = last_modified b /\ words a = words b /\
     written (chapters a) = written (chapters b) /\ published a = published b) /\
  (metadata_cmp a b = Lt -> metadata_cmp b c = Lt -> metadata_cmp a c = Lt).
Proof.
  unfold metadata_cmp. rewrite !lex_step_eq, !lex_step_lt, !eq_lt_false.
  split; [tauto|lia].
Qed.

End OrderFacts.

Module GroupFacts.
Import Extract Cache.

Lemma group_upd_filter (acc : list (string * (Version * list File))) (k h : string) (file : File) :
  Forall (fun e => fst e = hash (fst (snd e))) acc ->
  filter (fun g => String.eqb (hash (fst g)) h)
    (map snd (map (fun e => if String.eqb (fst e) k
                            then (fst e, (fst (snd e), snd (snd e) ++ [file])) else e) acc))
  = if String.eqb k h
    then map (fun g => (fst g, snd g ++ [file]))
           (filter (fun g => String.eqb (hash (fst g)) h) (map snd acc))
    else filter (fun g => String.eqb (hash (fst g)) h) (map snd acc).
Proof.
  induction 1 as [|[k' [v fs]] acc Hk Hinv IH]; simpl in *.
  - destruct (String.eqb k h); reflexivity.
  - subst k'. rewrite IH.
    destruct (String.eqb_spec (hash v) k) as [Hvk|Hvk]; simpl;
    destruct (String.eqb_spec (hash v) h) as [Hvh|Hvh]; simpl;
    destruct (String.eqb_spec k h) as [Hkh|Hkh]; simpl; try congruence.
Qed.

Lemma existsb_key (acc : list (string * (Version * list File))) (k : string) :
  Forall (fun e => fst e = hash (fst (snd e))) acc ->
  existsb (fun e => String.eqb (fst e) k) acc = false ->
  filter (fun g => String.eqb (hash (fst g)) k) (map snd acc) = [].
Proof.
  induction 1 as [|[k' [v fs]] acc Hk Hinv IH]; simpl in *; [reflexivity|].
  subst k'. destruct (String.eqb (hash v) k); [discriminate|exact IH].
Qed.

Lemma existsb_key_true (acc : list (string * (Version * list File))) (k : string) :
  Forall (fun e => fst e = hash (fst (snd e))) acc ->
  existsb (fun e => String.eqb (fst e) k) acc = true ->
  filter (fun g => String.eqb (hash (fst g)) k) (map snd acc) <> [].
Proof.
  induction 1 as [|[k' [v fs]] acc Hk Hinv IH]; simpl in *; [discriminate|].
  subst k'. destruct (String.eqb (hash v) k); [discriminate|exact IH].
Qed.

Lemma group_inv_step (acc : list (string * (Version * list File))) (file : File) (version : Version) :
  Forall (fun e => fst e = hash (fst (snd e))) acc ->
  Forall (fun e => fst e = hash (fst (snd e)))
    (if existsb (fun e => String.eqb (fst e) (hash version)) acc
     then map (fun e => if String.eqb (fst e) (hash version)
                        then (fst e, (fst (snd e), snd (snd e) ++ [file])) else e) acc
     else acc ++ [(hash version, (version, [file]))]).
Proof.
  intros H. destruct (existsb _ acc).
  - apply Forall_map. eapply Forall_impl; [|exact H].
    intros e He. destruct (String.eqb (fst e) (hash version)); exact He.
  - apply Forall_app. split; [exact H|]. constructor; [reflexivity|constructor].
Qed.

Lemma group_filter (rows : list (File * Version)) (acc : list (string * (Version * list File))) (h : string) :
  Forall (fun e => fst e = hash (fst (snd e))) acc ->
  filter (fun g => String.eqb (hash (fst g)) h) (group_files_by_version rows acc) =
  match filter (fun g => String.eqb (hash (fst g)) h) (map snd acc) with
  | [] => match find (fun fv => String.eqb (hash (snd fv)) h) rows with
          | None => []
          | Some (_, v) => [(v, map fst (filter (fun fv => String.eqb (hash (snd fv)) h) rows))]
          end
  | gs => map (fun g => (fst g, snd g ++ map fst (filter (fun fv => String.eqb (hash (snd fv)) h) rows))) gs
  end.
Proof.
  revert acc. induction rows as [|[file version] rest IH]; intros acc Hinv.
  - simpl. destruct (filter _ (map snd acc)) as [|g gs]; [reflexivity|].
    rewrite <- (map_id (g :: gs)) at 1. change (map (fun x => x) (g :: gs) =
      map (fun g0 : Version * list File => (fst g0, snd g0 ++ [])) (g :: gs)).
    apply map_ext. intros [v fs]; simpl. rewrite app_nil_r. reflexivity.
  - cbn [group_files_by_version]. rewrite (IH _ (group_inv_step acc file version Hinv)).
    cbn [find filter snd fst].
    destruct (existsb (fun e => String.eqb (fst e) (hash version)) acc) eqn:Ex.
    + rewrite (group_upd_filter acc (hash version) h file Hinv).
      pose proof (existsb_key_true acc (hash version) Hinv Ex) as Hne.
      destruct (String.eqb_spec (hash version) h) as [<-|Hvh].
      * destruct (filter _ (map snd acc)) as [|g gs]; [contradiction|].
        simpl. f_equal.
        -- destruct g; simpl; rewrite <- app_assoc; reflexivity.
        -- rewrite map_map. apply map_ext. intros [v fs]; simpl. rewrite <- app_assoc; reflexivity.
      * reflexivity.
    + rewrite map_app, filter_app. cbn [map snd filter fst].
      destruct (String.eqb_spec (hash version) h) as [<-|Hvh].
      * rewrite (existsb_key acc (hash version) Hinv Ex). simpl. reflexivity.
      * rewrite app_nil_r. reflexivity.
Qed.

(** [group_files_by_version] yields at most one group per content hash: the
    groups for hash [h] are none when no row has that hash, and otherwise one,
    holding the version of the first such row and all files of rows with that
    hash, in row order. *)
Theorem group_files_by_version_partition (rows : list (File * Version)) (h : string) :
  filter (fun g => String.eqb (hash (fst g)) h) (group_files_by_version rows []) =
  match find (fun fv => String.eqb (hash (snd fv)) h) rows with
  | None => []
  | Some (_, v) => [(v, map fst (filter (fun fv => String.eqb (hash (snd fv)) h) rows))]
  end.
Proof. rewrite (group_filter rows [] h (Forall_nil _)). reflexivity. Qed.

End GroupFacts.

Module RowFacts.
Import Extract Compress Cache CacheFacts.

(** Converting [i64] work-id rows to [u64]: the list comes back unchanged
    when every id is nonnegative, and the query fails with a "work id" error
    as soon as one is negative. *)
Theorem work_ids_of_rows_nonnegative (ids : list Z) :
  Forall (fun id => id <= I64_MAX) ids ->
  work_ids_of_rows ids = if forallb (fun id => 0 <=? id) ids then Ok ids
                         else Err (InvalidData "work id").
Proof.
  unfold work_ids_of_rows. induction 1 as [|id ids Hid Hids IH]; [reflexivity|].
  cbn [collect forallb]. unfold try_range at 1.
  destruct (Z.leb_spec 0 id) as [H0|H0]; cbn [andb].
  - replace (id <=? 2 ^ 64 - 1) with true by (symmetry; apply Z.leb_le; unfold I64_MAX in Hid; lia).
    cbn [bind]. rewrite IH. destruct (forallb _ ids); reflexivity.
  - reflexivity.
Qed.

(** Reading a file row checks the compression name first, then the size, then
    the discovery date: an unknown compression fails with "compression
    format", a negative size with "file size", and an out-of-range date with
    "discovery date". *)
Theorem file_of_file_row_error_order (r : FileRow) :
  (Compress.from_str (fr_compression r) = None ->
     file_of_file_row r = Err (InvalidData "compression format")) /\
  (Compress.from_str (fr_compression r) <> None -> fr_file_size r < 0 ->
     file_of_file_row r = Err (InvalidData "file size")) /\
  (Compress.from_str (fr_compression r) <> None -> 0 <= fr_file_size r <= 2 ^ 64 - 1 ->
     ~ (TS_MIN <= fr_discovered_at r <= TS_MAX) ->
     file_of_file_row r = Err (InvalidData "discovery date")).
Proof.
  unfold file_of_file_row, bind.
  split; [|split]; intros Hc.
  - rewrite Hc. reflexivity.
  - destruct (Compress.from_str (fr_compression r)) as [c|]; [|contradiction].
    intros Hs. unfold try_range at 1.
    replace (0 <=? fr_file_size r) with false by (symmetry; apply Z.leb_gt; exact Hs).
    reflexivity.
  - destruct (Compress.from_str (fr_compression r)) as [c|]; [|contradiction].
    intros Hs Ht. rewrite try_range_in by exact Hs. unfold try_range.
    destruct ((TS_MIN <=? fr_discovered_at r) && (fr_discovered_at r <=? TS_MAX)) eqn:E;
      [|reflexivity].
    exfalso. apply Ht. apply andb_true_iff in E as [E1 E2]. apply Z.leb_le in E1, E2. lia.
Qed.

End RowFacts.

Module ScanHashFacts.
Import Extract Compress Cache Library CacheFacts ScanFacts.

Lemma version_of_row_hash (vr : VersionRow) (v : Version) :
  version_of_version_row vr = Ok v -> hash v = vr_content_hash vr.
Proof.
  unfold version_of_version_row, bind.
  repeat match goal with |- context [match ?x with _ => _ end] => destruct x end;
    intros H; try discriminate; injection H as <-; reflexivity.
Qed.

Lemma joined_pair_hash (sel : FileRow -> bool) (d : Db) (row : FileRow * VersionRow)
    (f : File) (v : Version) :
  In row (join_rows sel d) -> pair_of_join_row row = Ok (f, v) -> content_hash f = hash v.
Proof.
  destruct row as [fr vr]. intros Hin Hp.
  destruct (join_rows_in _ _ _ _ Hin) as [_ [_ [_ Hh]]].
  destruct (pair_of_join_row_fields _ _ _ Hp) as [Hf Hv].
  destruct (file_of_file_row_fields _ _ Hf) as [_ [_ [_ [Hc _]]]].
  rewrite Hc, (version_of_row_hash _ _ Hv). simpl. symmetry. exact Hh.
Qed.

Lemma target_path_hash (t p : string) (d : Db) (f : File) (v : Version) :
  get_by_target_path t p d = Ok (Some (f, v)) -> content_hash f = hash v.
Proof.
  unfold get_by_target_path, bind.
  destruct (join_rows (same_key t p) d) as [|row rows] eqn:Ej; [discriminate|].
  destruct (pair_of_join_row row) as [[f' v']|e] eqn:Ep; [|discriminate].
  intros H; injection H as <- <-.
  apply (joined_pair_hash (same_key t p) d row); [rewrite Ej; left; reflexivity|exact Ep].
Qed.

Lemma exists_hash (t p fh : string) (d : Db) (r : ExistenceResult) :
  exists_ t p fh d = Ok r ->
  match r with
  | NotFound => True
  | ExactMatch f v | HashMismatch f v | LocatedElsewhere f v => content_hash f = hash v
  end.
Proof.
  unfold exists_, bind.
  destruct (get_by_target_path t p d) as [[[f v]|]|e] eqn:Eg; [| |discriminate].
  - intros H; injection H as <-. apply target_path_hash in Eg.
    destruct (String.eqb (file_hash f) fh); exact Eg.
  - destruct (get_by_file_hash fh d) as [[|[f v] rest]|e] eqn:Eh; [| |discriminate];
      intros H; injection H as <-; [exact I|].
    unfold get_by_file_hash in Eh.
    destruct (collect_in _ _ _ (f, v) Eh (or_introl eq_refl)) as [row [Hin Hp]].
    exact (joined_pair_hash _ _ _ _ _ Hin Hp).
Qed.

Section Hashes.
Variable bn : string.
Variable blake3 : string -> string.
Variable decompress : Compression -> string -> option string.
Variable extract : string -> option Version.
Variable cache : Repository.

Lemma scan_extract_hash (file : FileMeta) (fh bytes : string) (eff : ScanEffort)
    (w w1 : World) (s : Scan) :
  scan_extract decompress extract cache file fh bytes eff w = (Done s, w1) ->
  content_hash (scan_file s) = hash (scan_version s).
Proof.
  unfold scan_extract.
  destruct (decompress (compression file) bytes) as [content|]; [|discriminate].
  destruct (extract content) as [v|]; [|discriminate].
  unfold mbind, cache_write, ret.
  destruct (upsert cache _ v (db w)) as [[[]|e] d]; intros H; [|discriminate].
  injection H as <- _. reflexivity.
Qed.

(** The content hash a scan reports for the file is the hash of the version
    it reports. *)
Theorem scan_content_hash (file : FileMeta) (w w' : World) (s : Scan) :
  scan_file_inner bn blake3 decompress extract cache file w = (Done s, w') ->
  content_hash (scan_file s) = hash (scan_version s).
Proof.
  unfold scan_file_inner, mbind at 1, cache_query.
  assert (Probe : forall w0 w1, scan_read_and_probe bn blake3 decompress extract cache file w0
                               = (Done s, w1) -> content_hash (scan_file s) = hash (scan_version s)).
  { intros w0 w1. unfold scan_read_and_probe, mbind at 1, or_raise, backend_read.
    destruct (find_entry (path file) w0) as [e|]; [|discriminate].
    unfold mbind at 1, cache_query. simpl db.
    destruct (exists_ bn (path file) (blake3 (e_bytes e)) (db w0)) as [r|] eqn:Ex; [|discriminate].
    apply exists_hash in Ex.
    destruct r as [|f v|f v|f v].
    - apply scan_extract_hash.
    - unfold mbind, cache_write. simpl db.
      destruct (delete_by_target_path cache bn (path file) (db w0)) as [[b|e'] d];
        [apply scan_extract_hash|discriminate].
    - unfold mbind, cache_write. simpl db.
      destruct (delete_by_target_path cache bn (path file) (db w0)) as [[b|e'] d];
        [apply scan_extract_hash|discriminate].
    - unfold mbind, cache_write. simpl db.
      destruct (upsert cache _ v (db w0)) as [[[]|e'] d]; intros H; [|discriminate].
      injection H as <- _. exact Ex. }
  destruct (get_by_target_path bn (path file) (db w)) as [[[cf v]|]|e] eqn:Eg;
    [| |discriminate].
  - destruct (size file =? size (meta cf)); [|apply Probe].
    intros H. injection H as <- _. exact (target_path_hash _ _ _ _ _ Eg).
  - apply Probe.
Qed.

Lemma scan_extract_entries (file : FileMeta) (fh bytes : string) (eff : ScanEffort)
    (w : World) :
  entries (snd (scan_extract decompress extract cache file fh bytes eff w)) = entries w /\
  ops (snd (scan_extract decompress extract cache file fh bytes eff w)) = ops w.
Proof.
  unfold scan_extract.
  destruct (decompress (compression file) bytes) as [content|]; [|split; reflexivity].
  destruct (extract content) as [v|]; [|split; reflexivity].
  unfold mbind, cache_write, ret.
  destruct (upsert cache _ v (db w)) as [[[]|e] d]; split; reflexivity.
Qed.

Ltac extract_tail :=
  match goal with
  | |- context [scan_extract ?d ?x ?c ?f ?fh ?b ?ef ?w0] =>
      destruct (scan_extract_entries f fh b ef w0) as [A B]; rewrite A, B;
      split; reflexivity
  end.

(** Whatever its outcome, a scan leaves the backend's files as they were, and
    its only backend operation is at most one read of the file's path. *)
Theorem scan_never_writes_backend (file : FileMeta) (w : World) :
  entries (snd (scan_file_inner bn blake3 decompress extract cache file w)) = entries w /\
  (ops (snd (scan_file_inner bn blake3 decompress extract cache file w)) = ops w \/
   ops (snd (scan_file_inner bn blake3 decompress extract cache file w)) = ops w ++ [OpRead (path file)]).
Proof.
  assert (Probe : entries (snd (scan_read_and_probe bn blake3 decompress extract cache file w))
                    = entries w /\
                  ops (snd (scan_read_and_probe bn blake3 decompress extract cache file w))
                    = ops w ++ [OpRead (path file)]).
  { unfold scan_read_and_probe, mbind, or_raise, backend_read, cache_query, cache_write, ret.
    destruct (find_entry (path file) w) as [e|]; cbv beta iota zeta; [|split; reflexivity].
    cbn [db log].
    destruct (exists_ bn (path file) (blake3 (e_bytes e)) _) as [r|];
      [|split; reflexivity].
    destruct r as [|f v|f v|f v].
    - extract_tail.
    - destruct (delete_by_target_path cache bn (path file) _) as [[b|e'] d];
        [extract_tail|split; reflexivity].
    - destruct (delete_by_target_path cache bn (path file) _) as [[b|e'] d];
        [extract_tail|split; reflexivity].
    - destruct (upsert cache _ v _) as [[[]|e'] d]; split; reflexivity. }
  unfold scan_file_inner, mbind, cache_query, ret. cbv beta.
  destruct (get_by_target_path bn (path file) (db w)) as [[[cf v]|]|e]; cbv iota;
    [| |split; [reflexivity|left; reflexivity]].
  - destruct (size file =? size (meta cf)); [split; [reflexivity|left; reflexivity]|].
    destruct Probe as [P1 P2]. split; [exact P1|right; exact P2].
  - destruct Probe as [P1 P2]. split; [exact P1|right; exact P2].
Qed.

End Hashes.
End ScanHashFacts.

Module OrganizePostFacts.
Import Extract Compress Cache Library.

Section Posts.
Variable bn : string.
Variable blake3 : string -> string.
Variable decompress : Compression -> string -> option string.
Variable extract : string -> option Version.
Variable generate : Version -> Compression -> option string.
Variable convert : Compression -> Compression -> string -> option string.
Variable cache : Repository.
Variable ctx : Context.

(** A file the backend no longer holds is answered [CleanedUp] after one
    [exists] probe, its cache row is deleted, and nothing else changes. *)
Theorem organize_missing_file (n : nat) (file : FileMeta) (depth : list string) (w : World) :
  target file = bn -> find_entry (path file) w = None ->
  organize_file_inner bn blake3 decompress extract generate convert cache ctx (S n) file depth w
  = (Done (CleanedUp (path file)),
     {| entries := entries w;
        db := snd (delete_by_target_path cache (target file) (path file) (db w));
        ops := ops w ++ [OpExists (path file)] |}).
Proof.
  intros Ht Hf. simpl organize_file_inner.
  rewrite Ht, String.eqb_refl. cbn [negb].
  unfold mbind at 1, backend_exists. rewrite Hf. cbv beta iota. cbn [negb].
  unfold mbind, cache_write, ret, delete_by_target_path. cbn [db log entries ops].
  destruct (dry_run cache); reflexivity.
Qed.

End Posts.
End OrganizePostFacts.

Module StreamPathFacts.
Import ScanStream.

Section Paths.
Variable scan_ok : string -> bool.

Lemma scanned_paths_app (l m : list ScanEvent) :
  scanned_paths (l ++ m) = scanned_paths l ++ scanned_paths m.
Proof. induction l as [|[] l IH]; simpl; try rewrite IH; reflexivity. Qed.

Lemma discovered_paths_app (l m : list ScanEvent) :
  discovered_paths (l ++ m) = discovered_paths l ++ discovered_paths m.
Proof. induction l as [|[] l IH]; simpl; try rewrite IH; reflexivity. Qed.

Lemma pop_shape (npy : list string) :
  match rev npy with
  | q :: rnpy => npy = rev rnpy ++ [q]
  | [] => npy = []
  end.
Proof.
  destruct (rev npy) as [|q rnpy] eqn:Er.
  - destruct npy; [reflexivity|]. simpl in Er. destruct (rev npy); discriminate.
  - rewrite <- (rev_involutive npy), Er. reflexivity.
Qed.

Lemma discovery_arm_paths (st st' : LoopState) (evs : list ScanEvent) :
  (discovery_complete st = true -> listing st = []) ->
  discovery_arm st = (evs, st') ->
  discovered_paths evs ++ lok_paths (listing st') = lok_paths (listing st) /\
  Permutation (scanned_paths evs ++ processing st' ++ not_processing_yet st' ++ lok_paths (listing st'))
              (processing st ++ not_processing_yet st ++ lok_paths (listing st)) /\
  (discovery_complete st' = true -> listing st' = []).
Proof.
  destruct st as [ls dc n npy pr]. unfold discovery_arm. simpl.
  intros Hinv. destruct ls as [|[p|] rest].
  - intros H; injection H as <- <-. simpl. split; [reflexivity|split; [apply Permutation_refl|auto]].
  - destruct dc; [specialize (Hinv eq_refl); discriminate|].
    destruct (Nat.ltb (List.length pr) MAX_PROCESS_CONCURRENCY);
      intros H; injection H as <- <-; simpl; (split; [reflexivity|split; [|discriminate]]).
    + rewrite <- app_assoc. apply Permutation_app_head. simpl. apply Permutation_middle.
    + rewrite <- app_assoc. apply Permutation_app_head. simpl. apply Permutation_refl.
  - intros H; injection H as <- <-. simpl.
    split; [reflexivity|split; [apply Permutation_refl|]].
    intros Hd. specialize (Hinv Hd). discriminate.
Qed.

Lemma processing_arm_paths (st st' : LoopState) (evs : list ScanEvent) :
  (discovery_complete st = true -> listing st = []) ->
  processing_arm scan_ok st = (evs, st') ->
  discovered_paths evs ++ lok_paths (listing st') = lok_paths (listing st) /\
  Permutation (scanned_paths evs ++ processing st' ++ not_processing_yet st' ++ lok_paths (listing st'))
              (processing st ++ not_processing_yet st ++ lok_paths (listing st)) /\
  (discovery_complete st' = true -> listing st' = []).
Proof.
  destruct st as [ls dc n npy pr]. unfold processing_arm. simpl. intros Hinv.
  destruct pr as [|p rest].
  - intros H; injection H as <- <-. simpl. split; [reflexivity|split; [apply Permutation_refl|exact Hinv]].
  - pose proof (pop_shape npy) as Hs.
    destruct (rev npy) as [|q rnpy]; intros H; injection H as <- <-; simpl;
      unfold scanned_event; destruct (scan_ok p); simpl;
      (split; [reflexivity|split; [|exact Hinv]]); apply perm_skip; subst npy.
    all: try (simpl; apply Permutation_refl).
    all: rewrite <- app_assoc; apply Permutation_app_head; simpl;
         rewrite <- app_assoc; simpl; apply Permutation_middle.
Qed.

Lemma run_loop_paths (fuel : nat) (sched : list Poll) (st : LoopState) (evs : list ScanEvent) :
  (discovery_complete st = true -> listing st = []) ->
  run_loop scan_ok fuel sched st = Some evs ->
  discovered_paths evs = lok_paths (listing st) /\
  Permutation (scanned_paths evs)
    (processing st ++ not_processing_yet st ++ lok_paths (listing st)).
Proof.
  revert sched st evs. induction fuel as [|fuel IH]; intros sched st evs Hinv H;
    [discriminate|].
  cbn [run_loop] in H.
  assert (Arm : forall e st' sched',
            (discovery_complete st = true -> listing st = []) ->
            (discovery_complete st = true -> listing st = []) ->
            discovered_paths e ++ lok_paths (listing st') = lok_paths (listing st) /\
            Permutation (scanned_paths e ++ processing st' ++ not_processing_yet st' ++
                         lok_paths (listing st'))
                        (processing st ++ not_processing_yet st ++ lok_paths (listing st)) /\
            (discovery_complete st' = true -> listing st' = []) ->
            option_map (fun rest => e ++ rest) (run_loop scan_ok fuel sched' st') = Some evs ->
            discovered_paths evs = lok_paths (listing st) /\
            Permutation (scanned_paths evs)
              (processing st ++ not_processing_yet st ++ lok_paths (listing st))).
  { intros e st' sched' _ _ [D [P I]] Hr.
    destruct (run_loop scan_ok fuel sched' st') as [r|] eqn:Er; [|discriminate].
    injection Hr as <-. destruct (IH _ _ _ I Er) as [H1 H2].
    rewrite discovered_paths_app, scanned_paths_app, H1.
    split; [exact D|]. eapply Permutation_trans; [|exact P].
    apply Permutation_app_head. exact H2. }
  destruct (_ && _) eqn:Hc.
  - destruct (discovery_arm st) as [e st'] eqn:Ea.
    exact (Arm e st' _ Hinv Hinv (discovery_arm_paths st st' e Hinv Ea) H).
  - destruct (processing st) as [|p rest] eqn:Hp.
    + destruct (discovery_complete st) eqn:Hd; [|discriminate].
      pose proof (Hinv eq_refl) as Hl. rewrite Hl.
      destruct (not_processing_yet st) as [|q qs] eqn:Hn.
      * injection H as <-. simpl. split; [reflexivity|constructor].
      * apply IH in H as [H1 H2]; [|unfold else_refill; simpl; intros; exact Hl].
        unfold else_refill in H1, H2; cbn [listing processing not_processing_yet] in H1, H2.
        rewrite Hl in H1, H2. rewrite Hp, Hn in H2. cbn [lok_paths] in H1, H2.
        split; [exact H1|]. rewrite H2, !app_nil_r, !app_nil_l, firstn_skipn.
        apply Permutation_refl.
    + rewrite <- Hp in Arm |- *.
      destruct (processing_arm scan_ok st) as [e st'] eqn:Ea.
      exact (Arm e st' _ Hinv Hinv (processing_arm_paths st st' e Hinv Ea) H).
Qed.

End Paths.

(** Every listed file is announced by one [FileDiscovered] event, in listing
    order, and scanned exactly once. *)
Theorem scan_inner_paths (scan_ok : string -> bool) (fuel : nat) (sched : list Poll)
    (listed : list Listed) (evs : list ScanEvent) :
  scan_inner scan_ok fuel sched listed = Some evs ->
  discovered_paths evs = lok_paths listed /\ Permutation (scanned_paths evs) (lok_paths listed).
Proof.
  unfold scan_inner. destruct (run_loop scan_ok fuel sched _) as [r|] eqn:Er; [|discriminate].
  intros H; injection H as <-.
  apply run_loop_paths in Er as [H1 H2]; [|simpl; intros Hf; discriminate Hf].
  simpl in *. split; [exact H1|exact H2].
Qed.

Lemma npy_nonempty_len (l : list string) : l <> [] <-> (0 < List.length l)%nat.
Proof. destruct l; simpl; split; intros H; try congruence; try lia; discriminate. Qed.

(** The concurrency bound holds when the loop starts and is kept by each arm;
    [run_loop] takes the [else] arm only when [processing] is empty. *)
Theorem loop_inv_kept (scan_ok : string -> bool) :
  (forall listed, loop_inv (initial_state listed)) /\
  (forall st, loop_inv st -> loop_inv (snd (discovery_arm st))) /\
  (forall st, loop_inv st -> loop_inv (snd (processing_arm scan_ok st))) /\
  (forall st, loop_inv st -> processing st = [] -> loop_inv (else_refill st)).
Proof.
  unfold loop_inv, MAX_PROCESS_CONCURRENCY. split; [|split; [|split]].
  - intros listed. simpl. split; [lia|congruence].
  - intros [ls dc n npy pr] [H1 H2]; simpl in *. unfold discovery_arm; simpl.
    destruct ls as [|[p|] rest]; simpl; [split; assumption| |split; assumption].
    destruct (Nat.ltb_spec (List.length pr) MAX_PROCESS_CONCURRENCY) as [Hl|Hl]; simpl;
      unfold MAX_PROCESS_CONCURRENCY in *.
    + rewrite length_app. simpl. split; [lia|].
      intros Hn. specialize (H2 Hn). lia.
    + split; [lia|]. intros _.
      destruct npy as [|x xs]; [lia|]. apply H2. discriminate.
  - intros [ls dc n npy pr] [H1 H2]; simpl in *. unfold processing_arm; simpl.
    destruct pr as [|p rest]; [simpl; split; assumption|].
    pose proof (pop_shape npy) as Hs.
    destruct (rev npy) as [|q rnpy]; simpl.
    + split; [simpl in H1; lia|congruence].
    + assert (Hne : npy <> []) by (rewrite Hs; destruct (rev rnpy); discriminate).
      specialize (H2 Hne). simpl in H2. rewrite length_app. simpl.
      split; intros; lia.
  - intros [ls dc n npy pr] [H1 H2] Hp; cbn [processing] in Hp. subst pr.
    unfold else_refill; cbn [processing not_processing_yet app]. unfold MAX_PROCESS_CONCURRENCY.
    rewrite length_firstn. split; [lia|].
    intros Hn. apply npy_nonempty_len in Hn. rewrite length_skipn in Hn. lia.
Qed.

End StreamPathFacts.

Module FactWitnesses.
Import Extract Compress Cache Library Samples ScanStream.

Lemma from_path_extension_witness :
  Compress.Bzip2 <> Compress.None_ /\ from_path ("a.html" ++ extension Bzip2) = Bzip2.
Proof.
  split; [discriminate|].
  apply (PathExtFacts.from_path_extension "a.html" Bzip2); [discriminate|discriminate|discriminate].
Defined.

Lemma validate_path_segments_witness :
  StoragePath.validate_path "a/b" = StoragePath.Ok ["a"; "b"]%string /\
  ["a"; "b"]%string <> [] /\ Forall StoragePath.seg_ok ["a"; "b"]%string.
Proof.
  assert (E : StoragePath.validate_path "a/b" = StoragePath.Ok ["a"; "b"]%string) by reflexivity.
  split; [exact E|]. exact (ValidateFacts.validate_path_segments _ _ E).
Defined.

Lemma validate_path_idempotent_witness :
  StoragePath.validate_path "a/./b" = StoragePath.Ok ["a"; "b"]%string /\
  StoragePath.validate_path (StoragePath.path_string ["a"; "b"]%string) = StoragePath.Ok ["a"; "b"]%string.
Proof.
  assert (E : StoragePath.validate_path "a/./b" = StoragePath.Ok ["a"; "b"]%string) by reflexivity.
  split; [exact E|]. exact (ValidateFacts.validate_path_idempotent _ _ E).
Defined.

Lemma generate_with_ext_from_path_witness :
  PathTemplate.generate_with_ext (Some "x/y"%string) "html" (Some Bzip2)
    = PathTemplate.Ok "x/y.html.bz2"%string /\ from_path "x/y.html.bz2" = Bzip2.
Proof.
  assert (E : PathTemplate.generate_with_ext (Some "x/y"%string) "html" (Some Bzip2)
              = PathTemplate.Ok "x/y.html.bz2"%string) by reflexivity.
  split; [exact E|].
  apply (TemplateFacts.generate_with_ext_from_path (Some "x/y"%string) "html" _ Bzip2);
    [discriminate|simpl; intuition discriminate|exact E].
Defined.

Lemma work_ids_of_rows_nonnegative_witness :
  work_ids_of_rows [1; 2] = Ok [1; 2] /\ work_ids_of_rows [1; -2] = Err (InvalidData "work id").
Proof.
  split.
  - rewrite (RowFacts.work_ids_of_rows_nonnegative [1; 2]) by
      (repeat constructor; unfold I64_MAX; lia). reflexivity.
  - rewrite (RowFacts.work_ids_of_rows_nonnegative [1; -2]) by
      (repeat constructor; unfold I64_MAX; lia). reflexivity.
Defined.

Lemma scan_content_hash_witness :
  exists s w', scan_file_inner "local" id_blake3 plain_decompress sample_extract
                 (mkRepository false) sample_meta scan_world = (Done s, w') /\
               content_hash (scan_file s) = hash (scan_version s).
Proof.
  destruct (scan_file_inner "local" id_blake3 plain_decompress sample_extract
              (mkRepository false) sample_meta scan_world) as [[s|e] w'] eqn:E;
    [|vm_compute in E; discriminate].
  exists s, w'. split; [reflexivity|].
  exact (ScanHashFacts.scan_content_hash "local" id_blake3 plain_decompress sample_extract
           (mkRepository false) sample_meta scan_world w' s E).
Defined.

Lemma organize_missing_file_witness :
  organize_file_inner "local" id_blake3 plain_decompress sample_extract sample_generate
    plain_convert (mkRepository false) plain_context 10 sample_meta [] empty_world
  = (Done (CleanedUp (path sample_meta)),
     {| entries := entries empty_world;
        db := snd (delete_by_target_path (mkRepository false) (target sample_meta)
                     (path sample_meta) (db empty_world));
        ops := ops empty_world ++ [OpExists (path sample_meta)] |}).
Proof.
  apply (OrganizePostFacts.organize_missing_file "local" id_blake3 plain_decompress sample_extract
           sample_generate plain_convert (mkRepository false) plain_context 9 sample_meta []
           empty_world); reflexivity.
Defined.

Lemma scan_inner_paths_witness :
  scan_inner (fun p => negb (String.eqb p "b")) 20 [PollProc] [LOk "a"; LErr; LOk "b"]
  = Some [Started; FileDiscovered "a"; ListingFailed; FileDiscovered "b"; DiscoveryComplete 2;
          Scanned "a"; ScanFailed "b"; Complete] /\
  discovered_paths [Started; FileDiscovered "a"; ListingFailed; FileDiscovered "b";
                    DiscoveryComplete 2; Scanned "a"; ScanFailed "b"; Complete]
    = lok_paths [LOk "a"; LErr; LOk "b"] /\
  Permutation (scanned_paths [Started; FileDiscovered "a"; ListingFailed; FileDiscovered "b";
                              DiscoveryComplete 2; Scanned "a"; ScanFailed "b"; Complete])
    (lok_paths [LOk "a"; LErr; LOk "b"]).
Proof.
  match goal with |- ?E /\ _ => assert (H : E) by (vm_compute; reflexivity) end.
  split; [exact H|]. exact (StreamPathFacts.scan_inner_paths _ _ _ _ _ H).
Defined.

End FactWitnesses.
